(** * DCGAN on Street View House Numbers: the notebook's data pipeline,
      losses, optimisers and training loop

    A shallow embedding of [DCGAN_Exercises.ipynb].  Python exceptions are
    the [Raise] branch of [result]; NumPy arrays are lists along their
    leading axis; arithmetic on pixels is exact rational arithmetic with
    NumPy's values for a division by zero ([nan], [pinf], [ninf]) written
    out; TensorFlow losses are computed over the real numbers. *)

From Stdlib Require Import ZArith QArith Qminmax Qround Reals Psatz List String.
From stdpp Require Import base option list gmap strings.

(** ** Python exceptions *)

Inductive pyerr : Set :=
| ValueError
| ZeroDivisionError
| NameError
| IndexError.

Inductive result (A : Type) : Type :=
| Ok (a : A)
| Raise (e : pyerr).
Arguments Ok {A} a.
Arguments Raise {A} e.

#[global] Instance result_ret : MRet result := fun A a => Ok a.
#[global] Instance result_bind : MBind result := fun A B f m =>
  match m with
  | Ok a => f a
  | Raise e => Raise e
  end.

Definition is_ok {A} (r : result A) : Prop := ∃ a, r = Ok a.

(** ** NumPy floating values of a true division

    The inputs of [scale] are finite; a division by zero does not raise
    in NumPy, it yields [nan] (0/0) or an infinity. *)

Inductive npfloat : Set :=
| finite (q : Q)
| pinf
| ninf
| nan.

Definition np_true_divide (a b : Q) : npfloat :=
  if Qeq_bool b 0 then
    if Qeq_bool a 0 then nan
    else if Qle_bool 0 a then pinf else ninf
  else finite (a / b).

Definition np_multiply (v : npfloat) (c : Q) : npfloat :=
  match v with
  | finite q => finite (q * c)
  | nan => nan
  | pinf => if Qeq_bool c 0 then nan else if Qle_bool 0 c then pinf else ninf
  | ninf => if Qeq_bool c 0 then nan else if Qle_bool 0 c then ninf else pinf
  end.

Definition np_add (v : npfloat) (c : Q) : npfloat :=
  match v with
  | finite q => finite (q + c)
  | other => other
  end.

(** [v] is a number between [lo] and [hi]. *)
Definition np_within (lo hi : Q) (v : npfloat) : Prop :=
  match v with
  | finite q => (lo <= q ∧ q <= hi)%Q
  | _ => False
  end.

(** NumPy's [<=]: false as soon as one side is [nan]. *)
Definition np_le (a b : npfloat) : Prop :=
  match a, b with
  | nan, _ | _, nan => False
  | ninf, _ | _, pinf => True
  | finite p, finite q => (p <= q)%Q
  | _, _ => False
  end.

Definition np_is_finite (v : npfloat) : Prop :=
  match v with finite _ => True | _ => False end.

(** ** [scale] *)

(** An image is the sequence of its pixel values; a batch, as every array
    of the notebook, is the list of its samples. *)
Definition image : Type := list Q.

(** [x.min()]: the least element of the whole array; NumPy raises
    [ValueError] on an array without elements. *)
Definition array_min (x : list image) : result Q :=
  match concat x with
  | [] => Raise ValueError
  | p :: ps => Ok (fold_left Qmin ps p)
  end.

Definition default_feature_range : Q * Q := ((-1)%Q, 1%Q).

Definition scale (x : list image) (feature_range : Q * Q)
  : result (list (list npfloat)) :=
  lo ← array_min x;
  lo' ← array_min x;
  let x := map (map (fun p => np_true_divide (p - lo) (255 - lo'))) x in
  let '(min, max) := feature_range in
  let x := map (map (fun v => np_add (np_multiply v (max - min)) min)) x in
  Ok x.

(** A pixel of the source encoding. *)
Definition pixel (p : Q) : Prop := (0 <= p ∧ p <= 255)%Q.


(** ** Python integers, ranges and slices *)

(** [int(q)]: truncation towards zero. *)
Definition py_int (q : Q) : Z := Z.quot (Qnum q) (Z.pos (Qden q)).

(** [a // b] *)
Definition py_floordiv (a b : Z) : result Z :=
  if (b =? 0)%Z then Raise ZeroDivisionError else Ok (a / b)%Z.

(** [a % b] *)
Definition py_mod (a b : Z) : result Z :=
  if (b =? 0)%Z then Raise ZeroDivisionError else Ok (a mod b)%Z.

(** [range(start, stop, step)] *)
Definition py_range (start stop step : Z) : result (list Z) :=
  if (step =? 0)%Z then Raise ValueError
  else
    let n := if (0 <? step)%Z
             then ((stop - start + step - 1) / step)%Z
             else ((start - stop - step - 1) / (- step))%Z in
    Ok (map (fun k => (start + Z.of_nat k * step)%Z) (seq 0 (Z.to_nat n))).

(** A slice bound [i] of a sequence of length [n]: a negative bound
    counts from the end, and the bound is then clipped to [0, n]. *)
Definition slice_bound (n : nat) (i : Z) : nat :=
  let i := if (i <? 0)%Z then (i + Z.of_nat n)%Z else i in
  Z.to_nat (Z.min (Z.of_nat n) (Z.max 0 i)).

(** [a[:stop]], [a[start:]] and [a[start:stop]] *)
Definition slice_to {A} (a : list A) (stop : Z) : list A :=
  take (slice_bound (length a) stop) a.

Definition slice_from {A} (a : list A) (start : Z) : list A :=
  drop (slice_bound (length a) start) a.

Definition slice {A} (a : list A) (start stop : Z) : list A :=
  let s := slice_bound (length a) start in
  let e := slice_bound (length a) stop in
  take (e - s) (drop s a).

(** [a[idx]] for an array of indices that are not negative: NumPy raises
    [IndexError] on an index out of bounds. *)
Fixpoint take_indices {A} (a : list A) (idx : list nat) : result (list A) :=
  match idx with
  | [] => Ok []
  | i :: idx =>
      match a !! i with
      | Some v => vs ← take_indices a idx; Ok (v :: vs)
      | None => Raise IndexError
      end
  end.

(** Running a loop body over the items of a sequence, stopping at the
    first exception. *)
Fixpoint for_each {S A} (body : S → A → result S) (items : list A) (st : S)
  : result S :=
  match items with
  | [] => Ok st
  | a :: items => st ← body st a; for_each body items st
  end.

Fixpoint collect {A B} (f : A → result B) (items : list A) : result (list B) :=
  match items with
  | [] => Ok []
  | a :: items => b ← f a; bs ← collect f items; Ok (b :: bs)
  end.

(** ** [Dataset] *)

(** A loaded [.mat] file: the images under key ['X'], the labels under
    ['y'].  The file stores the sample index as the last axis of ['X'];
    an array of images is kept here as the list of its samples, so
    [X[:,:,:,a:b]] is a slice of that list. *)
Record mat : Type := { mat_X : list image; mat_y : list Z }.

(** [np.rollaxis(a, 3)] moves the sample axis to the front.  It changes the
    layout only: the samples and their order stay. *)
Definition rollaxis {A} (a : list A) (axis : nat) : list A := a.

Definition scaler_t : Type := list image → result (list (list npfloat)).

Record Dataset : Type := {
  test_x : list image;
  valid_x : list image;
  test_y : list Z;
  valid_y : list Z;
  train_x : list image;
  train_y : list Z;
  scaler : scaler_t;
  shuffle : bool
}.

Definition default_val_frac : Q := 1 # 2.

Definition Dataset_init (train test : mat) (val_frac : Q) (shuffle : bool)
    (scale_func : option scaler_t) : Dataset :=
  let split_idx :=
    py_int (inject_Z (Z.of_nat (length (mat_y test))) * (1 - val_frac))%Q in
  let '(test_x, valid_x) :=
    (slice_to (mat_X test) split_idx, slice_from (mat_X test) split_idx) in
  let '(test_y, valid_y) :=
    (slice_to (mat_y test) split_idx, slice_from (mat_y test) split_idx) in
  let '(train_x, train_y) := (mat_X train, mat_y train) in
  let train_x := rollaxis train_x 3 in
  let valid_x := rollaxis valid_x 3 in
  let test_x := rollaxis test_x 3 in
  let scaler :=
    match scale_func with
    | None => fun x => scale x default_feature_range
    | Some f => f
    end in
  {| test_x := test_x; valid_x := valid_x; test_y := test_y; valid_y := valid_y;
     train_x := train_x; train_y := train_y; scaler := scaler;
     shuffle := shuffle |}.

(** What the module-level name [dataset] is bound to when a method of
    some [Dataset] object runs: nothing, that very object, or another
    object. *)
Inductive binding : Type :=
| Unbound
| Self
| Other (d : Dataset).

Definition lookup_dataset (dataset : binding) (self : Dataset) : result Dataset :=
  match dataset with
  | Unbound => Raise NameError
  | Self => Ok self
  | Other d => Ok d
  end.

Definition set_train (self : Dataset) (tx : list image) (ty : list Z) : Dataset :=
  {| test_x := test_x self; valid_x := valid_x self;
     test_y := test_y self; valid_y := valid_y self;
     train_x := tx; train_y := ty;
     scaler := scaler self; shuffle := shuffle self |}.

(** The slices the loop of [batches] cuts, before scaling. *)
Definition batch_slices (self : Dataset) (batch_size : Z)
  : result (list (list image * list Z)) :=
  starts ← py_range 0 (Z.of_nat (length (train_y self))) batch_size;
  Ok (map (fun ii => (slice (train_x self) ii (ii + batch_size),
                      slice (train_y self) ii (ii + batch_size))) starts).

(** The loop of [batches], run to exhaustion: the batches it yields. *)
Definition batch_loop (self : Dataset) (batch_size : Z)
  : result (list (list (list npfloat) * list Z)) :=
  n_batches ← py_floordiv (Z.of_nat (length (train_y self))) batch_size;
  xys ← batch_slices self batch_size;
  collect (fun '(x, y) => sx ← scaler self x; Ok (sx, y)) xys.

Section Batches.

(** NumPy's global random generator, as a state, and its shuffle: the
    shuffled array and the next state. *)
Variable rng : Type.
Variable np_random_shuffle : list nat → rng → list nat * rng.

(** [Dataset.batches], run to exhaustion: the object after the call, the
    batches yielded in order, and the generator state.  The generator
    shuffles before its first batch, so a caller that draws from the random
    generator between two batches draws after the shuffle. *)
Definition batches (dataset : binding) (self : Dataset) (batch_size : Z) (g : rng)
  : result (Dataset * list (list (list npfloat) * list Z) * rng) :=
  '(self, g) ←
    (if shuffle self then
       d ← lookup_dataset dataset self;
       let idx := seq 0 (length (train_x d)) in
       let '(idx, g) := np_random_shuffle idx g in
       tx ← take_indices (train_x self) idx;
       ty ← take_indices (train_y self) idx;
       Ok (set_train self tx ty, g)
     else Ok (self, g));
  yielded ← batch_loop self batch_size;
  Ok (self, yielded, g).

End Batches.

(** ** TensorFlow operations of the loss, over the real numbers

    A tensor of logits or probabilities is the list of its elements. *)

Definition tf_ones_like (t : list R) : list R := map (fun _ => 1%R) t.
Definition tf_zeros_like (t : list R) : list R := map (fun _ => 0%R) t.

(** One element of [tf.nn.sigmoid_cross_entropy_with_logits]: TensorFlow
    computes [max(x, 0) - x * z + log(1 + exp(-abs(x)))] from the logit
    [x] and the label [z]. *)
Definition logit_cross_entropy (x z : R) : R :=
  (Rmax x 0 - x * z + ln (1 + exp (- Rabs x)))%R.

Fixpoint zip_logits (logits labels : list R) : list R :=
  match logits, labels with
  | x :: logits, z :: labels => logit_cross_entropy x z :: zip_logits logits labels
  | _, _ => []
  end.

(** TensorFlow raises [ValueError] when logits and labels differ in shape. *)
Definition tf_nn_sigmoid_cross_entropy_with_logits (logits labels : list R)
  : result (list R) :=
  if (length logits =? length labels)%nat
  then Ok (zip_logits logits labels)
  else Raise ValueError.

Definition tf_reduce_sum (t : list R) : R := fold_right Rplus 0%R t.

(** The mean of a tensor with at least one element (TensorFlow's mean of an
    empty tensor is not a number). *)
Definition tf_reduce_mean (t : list R) : R :=
  (tf_reduce_sum t / INR (length t))%R.

(** The logistic function and the cross-entropy of a probability, to
    compare the logit form with. *)
Definition sigmoid (x : R) : R := (1 / (1 + exp (- x)))%R.

Definition cross_entropy (p z : R) : R :=
  (- (z * ln p) - (1 - z) * ln (1 - p))%R.

Section Loss.

(** The two networks are left to the reader of the notebook; the loss is
    taken over any two of them.  [generator z output_dim reuse alpha
    training] is a batch of images, [discriminator x reuse alpha] the pair
    of the probabilities and the logits, one per sample. *)
Variable tensor : Type.
Variable ztensor : Type.
Variable generator : ztensor → Z → bool → R → bool → tensor.
Variable discriminator : tensor → bool → R → list R * list R.

Definition default_alpha : R := (2 / 10)%R.

Definition model_loss (input_real : tensor) (input_z : ztensor)
    (output_dim : Z) (alpha : R) : result (R * R) :=
  let g_model := generator input_z output_dim false alpha true in
  let '(d_model_real, d_logits_real) := discriminator input_real false alpha in
  let '(d_model_fake, d_logits_fake) := discriminator g_model true alpha in
  ce_real ← tf_nn_sigmoid_cross_entropy_with_logits
               d_logits_real (tf_ones_like d_model_real);
  let d_loss_real := tf_reduce_mean ce_real in
  ce_fake ← tf_nn_sigmoid_cross_entropy_with_logits
               d_logits_fake (tf_zeros_like d_model_fake);
  let d_loss_fake := tf_reduce_mean ce_fake in
  ce_gen ← tf_nn_sigmoid_cross_entropy_with_logits
              d_logits_fake (tf_ones_like d_model_fake);
  let g_loss := tf_reduce_mean ce_gen in
  let d_loss := (d_loss_real + d_loss_fake)%R in
  Ok (d_loss, g_loss).

End Loss.

(** ** [model_opt] *)

Section Optimizers.

(** The graph's variables live in the session, by name. *)
Variable value : Type.
Variable feed_dict : Type.
Variable loss_tensor : Type.

(** An operation of the graph, run in a session under a feed. *)
Definition operation : Type := feed_dict → gmap string value → gmap string value.

(** [tf.trainable_variables()]: the names of the trainable variables. *)
Variable trainable_variables : list string.

(** The operations collected under [tf.GraphKeys.UPDATE_OPS]: the refresh
    of the normalisation layers' running statistics. *)
Variable update_ops : operation.

(** One Adam step for a loss: the new value of a variable of [var_list],
    and the optimiser's own bookkeeping (moment estimates, step powers). *)
Variable adam_value : loss_tensor → R → R → feed_dict → gmap string value → string → value.
Variable adam_slots : loss_tensor → R → R → list string → operation.

(** [tf.train.AdamOptimizer(learning_rate, beta1).minimize(loss, var_list)]:
    every new value is computed from the variables as they are before the
    step. *)
Definition AdamOptimizer_minimize (learning_rate beta1 : R) (loss : loss_tensor)
    (var_list : list string) : operation :=
  fun fd vars =>
    foldr (fun var acc => <[var := adam_value loss learning_rate beta1 fd vars var]> acc)
          (adam_slots loss learning_rate beta1 var_list fd vars) var_list.

(** [with tf.control_dependencies(deps)]: [deps] run before the operation. *)
Definition control_dependencies (deps op : operation) : operation :=
  fun fd vars => op fd (deps fd vars).

(** [var.name.startswith(p)] *)
Definition startswith (name p : string) : bool := String.prefix p name.

Definition model_opt (d_loss g_loss : loss_tensor) (learning_rate beta1 : R)
  : operation * operation :=
  let t_vars := trainable_variables in
  let d_vars := List.filter (fun var => startswith var "discriminator") t_vars in
  let g_vars := List.filter (fun var => startswith var "generator") t_vars in
  let d_train_opt :=
    control_dependencies update_ops
      (AdamOptimizer_minimize learning_rate beta1 d_loss d_vars) in
  let g_train_opt :=
    control_dependencies update_ops
      (AdamOptimizer_minimize learning_rate beta1 g_loss g_vars) in
  (d_train_opt, g_train_opt).

End Optimizers.

(** ** [train] *)

(** A feed dictionary: the values given to the two placeholders. *)
Record feed : Type := {
  input_real : option (list (list npfloat));
  input_z : option (list (list Q))
}.

Inductive train_op : Set := DOpt | GOpt.
Inductive loss_op : Set := DLoss | GLoss.

Section Training.

Variable rng : Type.
Variable np_random_shuffle : list nat → rng → list nat * rng.
(** [np.random.uniform(low, high, size=(rows, cols))] for sizes that are
    not negative. *)
Variable np_random_uniform : Q → Q → nat * nat → rng → list (list Q) * rng.

(** The variables of the graph as a session holds them, the value of a
    loss and a batch of generated images. *)
Variable session : Type.
Variable lossval : Type.
Variable images : Type.

(** The network object: its two losses, evaluated in a session under a
    feed, and its two training operations. *)
Record GAN : Type := {
  d_loss : feed → session → lossval;
  g_loss : feed → session → lossval;
  d_opt : feed → session → session;
  g_opt : feed → session → session
}.

(** [tf.global_variables_initializer()]: the initial values. *)
Variable global_variables_initializer : session.
(** [generator(net.input_z, 3, reuse=True, training=False)] run under a feed. *)
Variable generator_inference : feed → session → images.
(** The module-level names [z_size] and [dataset]. *)
Variable z_size : Z.
Variable module_dataset : binding.

(** What the run does, in program order.  [EStep] marks [steps += 1]. *)
Inductive event : Type :=
| EStep (steps : Z)
| EUniform (rows cols : Z) (z : list (list Q))
| ERun (op : train_op) (fd : feed)
| EEval (l : loss_op) (fd : feed)
| EPrint (epoch epochs : Z) (d g : lossval)
| EAppend (d g : lossval)
| ESample (fd : feed)
| EView
| ESave
| EDump.

Record loop_state : Type := {
  sess : session;
  steps : Z;
  losses : list (lossval * lossval);
  samples : list images;
  trace : list event;
  gen : rng
}.

(** NumPy raises [ValueError] on a negative dimension. *)
Definition random_uniform (low high : Q) (rows cols : Z) (g : rng)
  : result (list (list Q) * rng) :=
  if ((rows <? 0) || (cols <? 0))%Z then Raise ValueError
  else Ok (np_random_uniform low high (Z.to_nat rows, Z.to_nat cols) g).

(** The body of the loop over the batches. *)
Definition train_batch (net : GAN) (epochs batch_size print_every show_every : Z)
    (sample_z : list (list Q)) (e : Z)
    (st : loop_state) (xy : list (list npfloat) * list Z) : result loop_state :=
  let '(x, y) := xy in
  let steps := (steps st + 1)%Z in
  '(batch_z, g) ← random_uniform (-1) 1 batch_size z_size (gen st);
  let fd_d := {| input_real := Some x; input_z := Some batch_z |} in
  let sess := d_opt net fd_d (sess st) in
  let fd_g := {| input_z := Some batch_z; input_real := Some x |} in
  let sess := g_opt net fd_g sess in
  let tr := trace st ++ [EStep steps; EUniform batch_size z_size batch_z;
                         ERun DOpt fd_d; ERun GOpt fd_g] in
  r ← py_mod steps print_every;
  let '(losses, tr) :=
    if (r =? 0)%Z then
      let fd_ld := {| input_z := Some batch_z; input_real := Some x |} in
      let train_loss_d := d_loss net fd_ld sess in
      let fd_lg := {| input_z := Some batch_z; input_real := None |} in
      let train_loss_g := g_loss net fd_lg sess in
      (losses st ++ [(train_loss_d, train_loss_g)],
       tr ++ [EEval DLoss fd_ld; EEval GLoss fd_lg;
              EPrint (e + 1) epochs train_loss_d train_loss_g;
              EAppend train_loss_d train_loss_g])
    else (losses st, tr) in
  r ← py_mod steps show_every;
  let '(samples, tr) :=
    if (r =? 0)%Z then
      let fd_s := {| input_z := Some sample_z; input_real := None |} in
      let gen_samples := generator_inference fd_s sess in
      (samples st ++ [gen_samples], tr ++ [ESample fd_s; EView])
    else (samples st, tr) in
  Ok {| sess := sess; steps := steps; losses := losses; samples := samples;
        trace := tr; gen := g |}.

Definition set_gen (st : loop_state) (g : rng) : loop_state :=
  {| sess := sess st; steps := steps st; losses := losses st;
     samples := samples st; trace := trace st; gen := g |}.

Definition add_trace (st : loop_state) (evs : list event) : loop_state :=
  {| sess := sess st; steps := steps st; losses := losses st;
     samples := samples st; trace := trace st ++ evs; gen := gen st |}.

(** The body of the loop over the epochs. *)
Definition train_epoch (net : GAN) (epochs batch_size print_every show_every : Z)
    (sample_z : list (list Q))
    (st : loop_state * Dataset) (e : Z) : result (loop_state * Dataset) :=
  let '(st, dataset) := st in
  '(dataset, yielded, g) ←
     batches rng np_random_shuffle module_dataset dataset batch_size (gen st);
  st ← for_each (train_batch net epochs batch_size print_every show_every sample_z e)
                yielded (set_gen st g);
  Ok (st, dataset).

Definition default_print_every : Z := 10.
Definition default_show_every : Z := 100.

(** [train]: the state at the end of the run, whose [losses] and [samples]
    the function returns, and the [Dataset] object as the run leaves it. *)
Definition train (net : GAN) (dataset : Dataset)
    (epochs batch_size print_every show_every : Z) (g : rng)
  : result (loop_state * Dataset) :=
  '(sample_z, g) ← random_uniform (-1) 1 72 z_size g;
  let st := {| sess := global_variables_initializer; steps := 0;
               losses := []; samples := [];
               trace := [EUniform 72 z_size sample_z]; gen := g |} in
  '(st, dataset) ←
     for_each (train_epoch net epochs batch_size print_every show_every sample_z)
              (map Z.of_nat (seq 0 (Z.to_nat epochs))) (st, dataset);
  Ok (add_trace st [ESave; EDump], dataset).

(** *** Reading a trace *)

(** Events that neither count a step, nor draw noise, nor run a training
    operation. *)
Definition quiet_event (ev : event) : Prop :=
  match ev with
  | EStep _ | EUniform _ _ _ | ERun _ _ => False
  | _ => True
  end.

(** The events of the [n]-th pass through the batch loop: the step count,
    the draw of a noise batch from the random generator, the discriminator's
    operation and then the generator's, both under the feed of one real
    batch and that noise batch; what follows is quiet. *)
Definition iteration_block (batch_size : Z) (n : Z) (blk : list event) : Prop :=
  ∃ x z g rest,
    blk = [EStep n; EUniform batch_size z_size z;
           ERun DOpt {| input_real := Some x; input_z := Some z |};
           ERun GOpt {| input_real := Some x; input_z := Some z |}] ++ rest
    ∧ z = (np_random_uniform (-1) 1 (Z.to_nat batch_size, Z.to_nat z_size) g).1
    ∧ Forall quiet_event rest.

(** The step counts at which a loss record was appended: the count is that
    of the last [EStep] before the [EAppend]. *)
Definition log_step (acc : Z * list Z) (ev : event) : Z * list Z :=
  match ev with
  | EStep n => (n, acc.2)
  | EAppend _ _ => (acc.1, acc.2 ++ [acc.1])
  | _ => acc
  end.

Definition logged_steps (tr : list event) : list Z :=
  (fold_left log_step tr (0%Z, [])).2.

(** The session that the training operations of a trace alone lead to. *)
Definition replay_event (net : GAN) (s : session) (ev : event) : session :=
  match ev with
  | ERun DOpt fd => d_opt net fd s
  | ERun GOpt fd => g_opt net fd s
  | _ => s
  end.

Definition replay (net : GAN) (tr : list event) (s : session) : session :=
  fold_left (replay_event net) tr s.

(** The number of samples a pass of [batches] runs over: with shuffling,
    the length of the index array, taken from the object the name [dataset]
    is bound to. *)
Definition epoch_samples (self : Dataset) : nat :=
  if shuffle self then
    match module_dataset with
    | Unbound => 0
    | Self => length (train_x self)
    | Other d => length (train_x d)
    end
  else length (train_y self).

End Training.

Arguments sess {rng session lossval images} _.
Arguments steps {rng session lossval images} _.
Arguments losses {rng session lossval images} _.
Arguments samples {rng session lossval images} _.
Arguments trace {rng session lossval images} _.
Arguments gen {rng session lossval images} _.
Arguments d_loss {session lossval} _ _ _.
Arguments g_loss {session lossval} _ _ _.
Arguments d_opt {session lossval} _ _ _.
Arguments g_opt {session lossval} _ _ _.
Arguments EStep {lossval} _.
Arguments EUniform {lossval} _ _ _.
Arguments ERun {lossval} _ _.
Arguments EEval {lossval} _ _.
Arguments EPrint {lossval} _ _ _ _.
Arguments EAppend {lossval} _ _.
Arguments ESample {lossval} _.
Arguments EView {lossval}.
Arguments ESave {lossval}.
Arguments EDump {lossval}.
Arguments quiet_event {lossval} _.
Arguments iteration_block {rng} _ {lossval} _ _ _ _.
Arguments log_step {lossval} _ _.
Arguments logged_steps {lossval} _.
Arguments replay_event {session lossval} _ _ _.
Arguments replay {session lossval} _ _ _.

(** ** Counting batches *)

(** The ceiling of [a / b] for a positive [b]. *)
Definition ceil_div (a b : Z) : Z := ((a + b - 1) / b)%Z.

(** Closes [Forall pixel l] for a list of numerals. *)
Ltac pixels :=
  simpl; repeat (match goal with |- Forall _ _ => constructor end);
  unfold pixel, Qle; simpl; lia.

(** ** Small instances to run the definitions on *)

(** A generator without state whose shuffle reverses the index array. *)
Definition reverse_shuffle (idx : list nat) (g : unit) : list nat * unit :=
  (rev idx, g).

Definition training_set (xs : list image) (ys : list Z) (shuffle : bool) : Dataset :=
  {| test_x := []; valid_x := []; test_y := []; valid_y := [];
     train_x := xs; train_y := ys;
     scaler := fun x => scale x default_feature_range;
     shuffle := shuffle |}.

Definition four_samples (shuffle : bool) : Dataset :=
  training_set [[0%Q]; [85%Q]; [170%Q]; [255%Q]] [1; 2; 3; 4]%Z shuffle.

Definition two_samples : Dataset :=
  training_set [[10%Q]; [20%Q]] [5; 6]%Z false.

(** Two networks to run the loss on: the generator hands its noise on as
    the image, the discriminator takes the input values for logits. *)
Definition identity_generator (z : list R) (output_dim : Z) (reuse : bool)
    (alpha : R) (training : bool) : list R := z.

Definition identity_discriminator (x : list R) (reuse : bool) (alpha : R)
  : list R * list R := (map sigmoid x, x).

(** A graph with one trainable variable per network, a running mean that
    the update operations refresh, and an optimiser that counts its steps. *)
Definition toy_trainable : list string := ["discriminator/w"; "generator/w"].

Definition toy_update_ops (fd : unit) (vars : gmap string Z) : gmap string Z :=
  <["generator/moving_mean" := 1%Z]> vars.

Definition toy_adam_value (loss : unit) (learning_rate beta1 : R) (fd : unit)
    (vars : gmap string Z) (var : string) : Z :=
  (default 0 (vars !! var) + 1)%Z.

Definition toy_adam_slots (loss : unit) (learning_rate beta1 : R)
    (var_list : list string) (fd : unit) (vars : gmap string Z) : gmap string Z :=
  <["beta1_power" := (default 0 (vars !! "beta1_power") + 1)%Z]> vars.

Definition toy_vars : gmap string Z :=
  <["discriminator/w" := 5%Z]> (<["generator/w" := 7%Z]> ∅).

(** A network whose session counts the training operations run (the
    discriminator's by one, the generator's by ten), whose losses read the
    session, and a noise source that fills the batch with its lower bound. *)
Definition toy_net : GAN Z Z :=
  {| d_loss := fun fd s => s; g_loss := fun fd s => (- s)%Z;
     d_opt := fun fd s => (s + 1)%Z; g_opt := fun fd s => (s + 10)%Z |}.

Definition constant_uniform (low high : Q) (size : nat * nat) (g : unit)
  : list (list Q) * unit :=
  (repeat (repeat low size.2) size.1, g).

Definition toy_train (dataset : Dataset) (epochs batch_size print_every
    show_every : Z) : result (loop_state unit Z Z unit * Dataset) :=
  train unit reverse_shuffle constant_uniform Z Z unit 0%Z (fun _ _ => tt)
    2%Z Self toy_net dataset epochs batch_size print_every show_every tt.

(** ** [view_samples] *)

(** [a[i]] on a Python list: a negative index counts from the end. *)
Definition py_getitem {A} (a : list A) (i : Z) : result A :=
  let j := if (i <? 0)%Z then (i + Z.of_nat (length a))%Z else i in
  if (j <? 0)%Z then Raise IndexError
  else match a !! Z.to_nat j with
       | Some v => Ok v
       | None => Raise IndexError
       end.

(** [img.min()] and [img.max()] of one image. *)
Definition np_min (a : list Q) : result Q :=
  match a with
  | [] => Raise ValueError
  | p :: ps => Ok (fold_left Qmin ps p)
  end.

Definition np_max (a : list Q) : result Q :=
  match a with
  | [] => Raise ValueError
  | p :: ps => Ok (fold_left Qmax ps p)
  end.

(** [v.astype(np.uint8)]: the fraction of a value between -1 and 256 is
    dropped.  For the other numbers, [nan] and the infinities the conversion
    has no defined result: [None]. *)
Definition astype_uint8 (v : npfloat) : option Z :=
  match v with
  | finite q =>
      if Qle_bool q (-1) || Qle_bool 256 q then None else Some (py_int q)
  | _ => None
  end.

(** [((img - img.min())*255 / (img.max() - img.min())).astype(np.uint8)] *)
Definition image_to_uint8 (img : image) : result (list (option Z)) :=
  lo ← np_min img;
  hi ← np_max img;
  lo' ← np_min img;
  Ok (map (fun p => astype_uint8 (np_true_divide ((p - lo) * 255) (hi - lo'))) img).

(** [view_samples]: the pixel arrays handed to [imshow], in order, for a
    grid of [nrows * ncols] axes.  [plt.subplots] returns the axes as an
    array only when there are at least two; with fewer the call fails at
    [axes.flatten()] or before, ahead of any access to [samples]: [None].
    [zip] stops at the shorter of the axes and the images of
    [samples[epoch]]. *)
Definition view_samples (epoch : Z) (samples : list (list image))
    (nrows ncols : nat) : option (result (list (list (option Z)))) :=
  let axes := nrows * ncols in
  if axes <? 2 then None
  else Some (imgs ← py_getitem samples epoch;
             collect image_to_uint8 (take axes imgs)).

(** ** The download cell *)

(** The progress bar of a download: tqdm's [total] and counter [n], and
    the class's [last_block]. *)
Record DLProgress : Type := {
  dl_total : option Z;
  dl_n : Z;
  dl_last_block : Z
}.

(** A bar as tqdm creates it; [last_block = 0] is the class attribute. *)
Definition DLProgress_new (total : option Z) : DLProgress :=
  {| dl_total := total; dl_n := 0; dl_last_block := 0 |}.

(** [tqdm.update(k)] adds [k] to the counter. *)
Definition tqdm_update (self : DLProgress) (k : Z) : DLProgress :=
  {| dl_total := dl_total self; dl_n := (dl_n self + k)%Z;
     dl_last_block := dl_last_block self |}.

Definition DLProgress_hook (self : DLProgress) (block_num block_size : Z)
    (total_size : option Z) : DLProgress :=
  let self := {| dl_total := total_size; dl_n := dl_n self;
                 dl_last_block := dl_last_block self |} in
  let self := tqdm_update self ((block_num - dl_last_block self) * block_size) in
  {| dl_total := dl_total self; dl_n := dl_n self; dl_last_block := block_num |}.

(** The calls [urlretrieve] makes to its report hook, one after the other. *)
Definition run_hook (self : DLProgress) (calls : list (Z * Z * option Z))
  : DLProgress :=
  fold_left (fun bar '(block_num, block_size, total_size) =>
               DLProgress_hook bar block_num block_size total_size) calls self.

(** The directories and the files that exist. *)
Record filesystem : Type := {
  fs_dirs : gset string;
  fs_files : gset string
}.

Definition isdir (fs : filesystem) (path : string) : bool :=
  bool_decide (path ∈ fs_dirs fs).
Definition isfile (fs : filesystem) (path : string) : bool :=
  bool_decide (path ∈ fs_files fs).

(** A retrieval that completes: the file exists afterwards. *)
Definition urlretrieve (url filename : string) (fs : filesystem) : filesystem :=
  {| fs_dirs := fs_dirs fs; fs_files := {[filename]} ∪ fs_files fs |}.

Definition data_dir : string := "data/".
Definition train_url : string := "http://ufldl.stanford.edu/housenumbers/train_32x32.mat".
Definition test_url : string := "http://ufldl.stanford.edu/housenumbers/test_32x32.mat".

(** The cell that fetches the two files: [None] when it raises for the
    missing directory, else the file system it leaves and the URLs it
    retrieved, in order. *)
Definition download_cell (fs : filesystem) : option (filesystem * list string) :=
  if negb (isdir fs data_dir) then None
  else
    let '(fs, fetched) :=
      if negb (isfile fs (data_dir +:+ "train_32x32.mat"))
      then (urlretrieve train_url (data_dir +:+ "train_32x32.mat") fs, [train_url])
      else (fs, []) in
    let '(fs, fetched) :=
      if negb (isfile fs (data_dir +:+ "test_32x32.mat"))
      then (urlretrieve test_url (data_dir +:+ "test_32x32.mat") fs,
            fetched ++ [test_url])
      else (fs, fetched) in
    Some (fs, fetched).

(** ** Reading the samples of a trace *)

(** The step counts at which the generator was sampled. *)
Definition sample_step {lossval} (acc : Z * list Z) (ev : event lossval)
  : Z * list Z :=
  match ev with
  | EStep n => (n, acc.2)
  | ESample _ => (acc.1, acc.2 ++ [acc.1])
  | _ => acc
  end.

Definition sampled_steps {lossval} (tr : list (event lossval)) : list Z :=
  (fold_left sample_step tr (0%Z, [])).2.

(** Every sampling of the trace is fed the noise [sample_z] and nothing else. *)
Definition samples_fed {lossval} (sample_z : list (list Q)) (ev : event lossval)
  : Prop :=
  match ev with
  | ESample fd => fd = {| input_real := None; input_z := Some sample_z |}
  | _ => True
  end.

(** A generator that always draws the same two images, to run [train] and
    [view_samples] on. *)
Definition two_images : list image := [[0%Q; (1 # 2)%Q; 1%Q]; [(-1)%Q; 1%Q]].

Definition view_train (dataset : Dataset) (epochs batch_size print_every
    show_every : Z) : result (loop_state unit Z Z (list image) * Dataset) :=
  train unit reverse_shuffle constant_uniform Z Z (list image) 0%Z
    (fun _ _ => two_images) 2%Z Self toy_net dataset epochs batch_size
    print_every show_every tt.

(** A file system in which the data directory holds the test file only. *)
Definition test_file_only : filesystem :=
  {| fs_dirs := {["data/"]}; fs_files := {["data/test_32x32.mat"]} |}.

(** * Properties *)

Lemma bind_Ok {A B} (f : A → result B) (m : result A) (b : B) :
  m ≫= f = Ok b ↔ ∃ a, m = Ok a ∧ f a = Ok b.
Proof.
  destruct m as [a|e]; simpl; split.
  - intros H. exists a. split; [reflexivity | exact H].
  - intros (a' & Ha & Hf). injection Ha as <-. exact Hf.
  - discriminate.
  - intros (a' & Ha & _). discriminate.
Qed.

Example scale_example :
scale [[0%Q; 51%Q]; [255%Q; 102%Q]] default_feature_range
= Ok [[finite (-255 # 255); finite (-153 # 255)];
      [finite (255 # 255); finite (-51 # 255)]].
Proof. vm_compute. reflexivity. Qed.

(** ** Facts about [scale] *)

Section ScaleFacts.
Local Open Scope Q_scope.

Lemma fold_min_le (ps : list Q) (p : Q) :
  fold_left Qmin ps p <= p ∧ Forall (fun q => fold_left Qmin ps p <= q) ps.
Proof.
  revert p. induction ps as [|a ps IH]; intros p; simpl.
  - split; [apply Qle_refl | constructor].
  - destruct (IH (Qmin p a)) as [H1 H2]. split.
    + eapply Qle_trans; [exact H1 | apply Q.le_min_l].
    + constructor; [| exact H2].
      eapply Qle_trans; [exact H1 | apply Q.le_min_r].
Qed.

Lemma fold_min_elem (ps : list Q) (p : Q) : fold_left Qmin ps p ∈ p :: ps.
Proof.
  revert p. induction ps as [|a ps IH]; intros p; simpl.
  - left.
  - specialize (IH (Qmin p a)). apply elem_of_cons in IH as [-> | IH].
    + unfold Qmin, GenericMinMax.gmin. destruct (p ?= a); [left | left | right; left].
    + right. right. exact IH.
Qed.

Lemma array_min_spec (x : list image) (m : Q) :
  array_min x = Ok m → m ∈ concat x ∧ Forall (fun q => m <= q) (concat x).
Proof.
  unfold array_min. destruct (concat x) as [|p ps]; [discriminate |].
  intros [= <-]. split; [apply fold_min_elem |].
  destruct (fold_min_le ps p) as [H1 H2]. constructor; assumption.
Qed.

Lemma array_min_Ok (x : list image) :
  concat x ≠ [] → ∃ m, array_min x = Ok m.
Proof.
  unfold array_min. destruct (concat x) as [|p ps]; [congruence | eauto].
Qed.

Lemma array_min_Raise (x : list image) :
  concat x = [] → array_min x = Raise ValueError.
Proof. unfold array_min. intros ->. reflexivity. Qed.

Lemma concat_map_map {A B} (f : A → B) (x : list (list A)) :
  concat (map (map f) x) = map f (concat x).
Proof.
  induction x as [|a x IH]; simpl; [reflexivity |].
  rewrite IH, map_app. reflexivity.
Qed.

Lemma lookup_map {A B} (f : A → B) (l : list A) (i : nat) :
  map f l !! i = f <$> (l !! i).
Proof. exact (list_lookup_fmap f l i). Qed.

(** The denominator is not zero: every element is an ordinary quotient. *)
Lemma scale_regular (x : list image) (lo hi m : Q) :
  array_min x = Ok m → ¬ 255 - m == 0 →
  scale x (lo, hi)
  = Ok (map (map (fun p => finite ((p - m) / (255 - m) * (hi - lo) + lo))) x).
Proof.
  intros Hm Hd. unfold scale. rewrite Hm. simpl.
  f_equal. rewrite map_map. apply map_ext. intros img.
  rewrite map_map. apply map_ext. intros p.
  unfold np_true_divide.
  destruct (Qeq_bool (255 - m) 0) eqn:E; [| reflexivity].
  apply Qeq_bool_iff in E. contradiction.
Qed.

(** The denominator is zero and every numerator too: only [nan]. *)
Lemma scale_degenerate (x : list image) (fr : Q * Q) (m : Q) :
  array_min x = Ok m → 255 - m == 0 → Forall (fun p => p == 255) (concat x) →
  scale x fr = Ok (map (map (fun _ => nan)) x).
Proof.
  intros Hm Hd Hall. unfold scale. rewrite Hm. simpl. destruct fr as [lo hi].
  f_equal. rewrite map_map.
  assert (Himg : Forall (Forall (fun p => p == 255)) x).
  { clear Hm. induction x as [|a x IH]; [constructor |].
    simpl in Hall. apply Forall_app in Hall as [Ha Hx].
    constructor; [exact Ha | apply IH; exact Hx]. }
  clear Hall Hm. induction Himg as [|img x Himg _ IH]; [reflexivity |].
  simpl. f_equal; [| exact IH].
  rewrite map_map. clear IH. induction Himg as [|p img Hp _ IH]; [reflexivity |].
  simpl. f_equal; [| exact IH].
  unfold np_true_divide.
  assert (E1 : Qeq_bool (255 - m) 0 = true) by (apply Qeq_bool_iff; exact Hd).
  assert (E2 : Qeq_bool (p - m) 0 = true).
  { apply Qeq_bool_iff. rewrite Hp. exact Hd. }
  rewrite E1, E2. reflexivity.
Qed.

Lemma unit_quotient (p m : Q) :
  m <= p → p <= 255 → m < 255 →
  0 <= (p - m) / (255 - m) ∧ (p - m) / (255 - m) <= 1.
Proof.
  intros H1 H2 H3. split.
  - apply Qle_shift_div_l; lra.
  - apply Qle_shift_div_r; lra.
Qed.

Lemma quotient_monotone (p q m : Q) :
  m < 255 → p <= q → (p - m) / (255 - m) <= (q - m) / (255 - m).
Proof.
  intros H3 Hpq. unfold Qdiv. apply Qmult_le_compat_r; [lra |].
  apply Qlt_le_weak, Qinv_lt_0_compat. lra.
Qed.

Lemma min_below_255 (x : list image) (m : Q) :
  array_min x = Ok m → Exists (fun p => p < 255) (concat x) → m < 255.
Proof.
  intros Hm Hex. apply array_min_spec in Hm as [_ Hle].
  apply Exists_exists in Hex as (p & Hin & Hp).
  rewrite Forall_forall in Hle. specialize (Hle p Hin). lra.
Qed.

End ScaleFacts.

(** ** The range and the order of the scaled pixels *)

Section ScaleClaims.
Local Open Scope Q_scope.


(** C2, as amended.  For every image batch whose pixels all lie in
    [0, 255] and one of whose pixels is below 255, [scale] with the default
    feature range returns an array of the same shape whose elements are
    numbers of [-1, 1], and of two pixels of the batch the larger never maps
    to the smaller value. *)
Theorem scale_range_monotone (x : list image) :
  Forall pixel (concat x) →
  Exists (fun p => p < 255) (concat x) →
  ∃ y, scale x default_feature_range = Ok y
     ∧ map length y = map length x
     ∧ Forall (np_within (-1) 1) (concat y)
     ∧ ∀ i j pi pj vi vj,
         concat x !! i = Some pi → concat x !! j = Some pj →
         concat y !! i = Some vi → concat y !! j = Some vj →
         pi <= pj → np_le vi vj.
Proof.
  intros Hpix Hex.
  assert (Hne : concat x ≠ []).
  { intros E. rewrite E in Hex. inversion Hex. }
  destruct (array_min_Ok x Hne) as [m Hm].
  pose proof (min_below_255 x m Hm Hex) as Hlt.
  destruct (array_min_spec x m Hm) as [_ Hle].
  eexists. split; [| split; [| split]].
  - unfold default_feature_range. apply (scale_regular x _ _ m Hm). lra.
  - rewrite map_map. apply map_ext. intros img. apply length_map.
  - rewrite concat_map_map. apply Forall_map.
    rewrite Forall_forall in Hpix, Hle. apply Forall_forall. intros p Hp.
    destruct (Hpix p Hp) as [_ Hp255]. specialize (Hle p Hp).
    destruct (unit_quotient p m Hle Hp255 Hlt) as [H0 H1].
    simpl. lra.
  - intros i j pi pj vi vj Hi Hj Hvi Hvj Hpp.
    rewrite concat_map_map in Hvi, Hvj.
    rewrite lookup_map, Hi in Hvi. rewrite lookup_map, Hj in Hvj.
    simpl in Hvi, Hvj. injection Hvi as <-. injection Hvj as <-.
    pose proof (quotient_monotone pi pj m Hlt Hpp). simpl. lra.
Qed.

Lemma scale_range_monotone_witness :
  ∃ y, scale [[0; 51]; [255; 102]] default_feature_range = Ok y
     ∧ map length y = map length [[0; 51]; [255; 102]]
     ∧ Forall (np_within (-1) 1) (concat y)
     ∧ ∀ i j pi pj vi vj,
         concat [[0; 51]; [255; 102]] !! i = Some pi →
         concat [[0; 51]; [255; 102]] !! j = Some pj →
         concat y !! i = Some vi → concat y !! j = Some vj →
         pi <= pj → np_le vi vj.
Proof.
  apply (scale_range_monotone [[0; 51]; [255; 102]]).
  - pixels.
  - simpl. left. reflexivity.
Defined.

(** C2, as stated, fails on a batch that is white everywhere: its pixels
    lie in [0, 255], and the array [scale] returns holds no number. *)
Lemma scale_white_batch_out_of_range :
  Forall pixel (concat [[255; 255]])
  ∧ scale [[255; 255]] default_feature_range = Ok [[nan; nan]]
  ∧ ¬ Forall (np_within (-1) 1) (concat [[nan; nan]]).
Proof.
  split; [| split].
  - pixels.
  - vm_compute. reflexivity.
  - intros H. inversion H as [|? ? Hnan _]. exact Hnan.
Qed.

(** ** When the division of [scale] is defined *)

Lemma list_eq_nil_dec {A} (l : list A) : {l = [] } + {l ≠ [] }.
Proof. destruct l; [left; reflexivity | right; discriminate]. Qed.

Lemma below_255_or_all_255 (l : list Q) :
  Forall pixel l →
  Exists (fun p => p < 255) l ∨ Forall (fun p => p == 255) l.
Proof.
  induction 1 as [|p l [_ Hp] _ IH]; [right; constructor |].
  destruct (Qlt_le_dec p 255) as [Hlt | Hge].
  - left. left. exact Hlt.
  - destruct IH as [IH | IH].
    + left. right. exact IH.
    + right. constructor; [lra | exact IH].
Qed.

Lemma concat_map_const_nan (x : list image) :
  Forall (fun v => v = nan) (concat (map (map (fun _ : Q => nan)) x)).
Proof.
  rewrite concat_map_map. apply Forall_map, Forall_forall. reflexivity.
Qed.

(** C10.  On a batch of pixels (none above 255), [scale] divides by 255
    minus the least pixel: that denominator differs from zero exactly when
    the least pixel is below 255; the result is an array of numbers exactly
    when some pixel is below 255; and on a batch whose pixels all equal 255
    every element of the result is 0/0, not a number. *)
Theorem scale_defined_iff (x : list image) (fr : Q * Q) :
  Forall pixel (concat x) →
  ((∃ y, scale x fr = Ok y ∧ Forall np_is_finite (concat y))
   ↔ Exists (fun p => p < 255) (concat x))
  ∧ (concat x ≠ [] → Forall (fun p => p == 255) (concat x) →
     scale x fr = Ok (map (map (fun _ => nan)) x))
  ∧ (∀ m, array_min x = Ok m → (¬ 255 - m == 0 ↔ m < 255)).
Proof.
  intros Hpix.
  assert (Hden : ∀ m, array_min x = Ok m → (¬ 255 - m == 0 ↔ m < 255)).
  { intros m Hm. destruct (array_min_spec x m Hm) as [Hin _].
    rewrite Forall_forall in Hpix. destruct (Hpix m Hin) as [_ Hle].
    split; intros H; lra. }
  assert (Hnan : concat x ≠ [] → Forall (fun p => p == 255) (concat x) →
                 scale x fr = Ok (map (map (fun _ => nan)) x)).
  { intros Hne Hall. destruct (array_min_Ok x Hne) as [m Hm].
    destruct (array_min_spec x m Hm) as [Hin _].
    rewrite Forall_forall in Hall. pose proof (Hall m Hin) as H255.
    apply (scale_degenerate x fr m Hm); [lra | apply Forall_forall, Hall]. }
  split; [| split; assumption].
  split.
  - intros (y & Hy & Hfin).
    destruct (below_255_or_all_255 _ Hpix) as [Hex | Hall]; [exact Hex |].
    exfalso. destruct (list_eq_nil_dec (concat x)) as [Ex | Hne].
    + unfold scale in Hy. rewrite (array_min_Raise x Ex) in Hy. discriminate.
    + rewrite (Hnan Hne Hall) in Hy. injection Hy as <-.
      rewrite concat_map_map in Hfin.
      destruct (concat x) as [|p ps]; [congruence |].
      inversion Hfin as [|? ? Hbad _]. exact Hbad.
  - intros Hex.
    assert (Hne : concat x ≠ []).
    { intros E. rewrite E in Hex. inversion Hex. }
    destruct (array_min_Ok x Hne) as [m Hm].
    pose proof (min_below_255 x m Hm Hex) as Hlt.
    destruct fr as [lo hi]. eexists. split.
    + apply (scale_regular x lo hi m Hm). lra.
    + rewrite concat_map_map. apply Forall_map, Forall_forall. intros p _. exact I.
Qed.

Lemma scale_defined_iff_witness :
  ((∃ y, scale [[255; 255]] default_feature_range = Ok y
         ∧ Forall np_is_finite (concat y))
   ↔ Exists (fun p => p < 255) (concat [[255; 255]]))
  ∧ (concat [[255; 255]] ≠ [] → Forall (fun p => p == 255) (concat [[255; 255]]) →
     scale [[255; 255]] default_feature_range
     = Ok (map (map (fun _ => nan)) [[255; 255]]))
  ∧ (∀ m, array_min [[255; 255]] = Ok m → (¬ 255 - m == 0 ↔ m < 255)).
Proof.
  apply (scale_defined_iff [[255; 255]] default_feature_range). pixels.
Defined.

End ScaleClaims.

(** ** The split of the test collection *)

Lemma slice_bound_le (n : nat) (i : Z) : slice_bound n i ≤ n.
Proof. unfold slice_bound. destruct (i <? 0)%Z; lia. Qed.

Lemma slice_to_from {A} (a : list A) (i : Z) : slice_to a i ++ slice_from a i = a.
Proof. unfold slice_to, slice_from. apply take_drop. Qed.

Example Dataset_init_half :
  let d := Dataset_init {| mat_X := []; mat_y := [] |}
             {| mat_X := [[1%Q]; [2%Q]; [3%Q]]; mat_y := [7; 8; 9]%Z |}
             default_val_frac false None in
  test_x d = [[1%Q]] ∧ valid_x d = [[2%Q]; [3%Q]]
  ∧ test_y d = [7%Z] ∧ valid_y d = [8; 9]%Z.
Proof. vm_compute. repeat split. Qed.

(** A fraction above one gives a negative split index, which Python counts
    from the end: the two slices still share no sample. *)
Example Dataset_init_negative_split :
  let d := Dataset_init {| mat_X := []; mat_y := [] |}
             {| mat_X := [[1%Q]; [2%Q]; [3%Q]]; mat_y := [7; 8; 9]%Z |}
             (4 # 3) false None in
  test_y d = [7; 8]%Z ∧ valid_y d = [9%Z].
Proof. vm_compute. repeat split. Qed.

(** C3.  For a test collection of [n] images and [n] labels and any
    validation fraction, the constructor cuts both arrays at one index [k]:
    the test part is the first [k] samples, the validation part the other
    [n - k], so the sizes add up to [n], no sample index is in both parts,
    and the label at a position of a part belongs to the image at that
    position. *)
Theorem Dataset_init_partition (train test : mat) (val_frac : Q) (shuffle : bool)
    (scale_func : option scaler_t) (n : nat) :
  length (mat_X test) = n → length (mat_y test) = n →
  let d := Dataset_init train test val_frac shuffle scale_func in
  ∃ k, k ≤ n
     ∧ test_x d = take k (mat_X test) ∧ valid_x d = drop k (mat_X test)
     ∧ test_y d = take k (mat_y test) ∧ valid_y d = drop k (mat_y test)
     ∧ length (test_x d) = k ∧ length (test_y d) = k
     ∧ length (valid_x d) = n - k ∧ length (valid_y d) = n - k
     ∧ length (valid_y d) + length (test_y d) = n
     ∧ (∀ i, i < k → test_x d !! i = mat_X test !! i
                    ∧ test_y d !! i = mat_y test !! i)
     ∧ (∀ j, valid_x d !! j = mat_X test !! (k + j)
           ∧ valid_y d !! j = mat_y test !! (k + j)).
Proof.
  intros HX Hy d.
  set (split_idx :=
         py_int (inject_Z (Z.of_nat (length (mat_y test))) * (1 - val_frac))%Q).
  exists (slice_bound n split_idx).
  pose proof (slice_bound_le n split_idx) as Hk.
  assert (Etx : test_x d = take (slice_bound n split_idx) (mat_X test)).
  { subst d. unfold Dataset_init, rollaxis, slice_to. simpl. rewrite HX. reflexivity. }
  assert (Evx : valid_x d = drop (slice_bound n split_idx) (mat_X test)).
  { subst d. unfold Dataset_init, rollaxis, slice_from. simpl. rewrite HX. reflexivity. }
  assert (Ety : test_y d = take (slice_bound n split_idx) (mat_y test)).
  { subst d. unfold Dataset_init, slice_to, split_idx. simpl. rewrite Hy. reflexivity. }
  assert (Evy : valid_y d = drop (slice_bound n split_idx) (mat_y test)).
  { subst d. unfold Dataset_init, slice_from, split_idx. simpl. rewrite Hy. reflexivity. }
  rewrite Etx, Evx, Ety, Evy.
  rewrite !length_take, !length_drop, HX, Hy.
  repeat split; try reflexivity; try lia.
  - apply lookup_take_lt. assumption.
  - apply lookup_take_lt. assumption.
  - apply lookup_drop.
  - apply lookup_drop.
Qed.

Lemma Dataset_init_partition_witness :
  let test := {| mat_X := [[1%Q]; [2%Q]; [3%Q]]; mat_y := [7; 8; 9]%Z |} in
  let d := Dataset_init {| mat_X := []; mat_y := [] |} test (1 # 3) false None in
  ∃ k, k ≤ 3
     ∧ test_x d = take k (mat_X test) ∧ valid_x d = drop k (mat_X test)
     ∧ test_y d = take k (mat_y test) ∧ valid_y d = drop k (mat_y test)
     ∧ length (test_x d) = k ∧ length (test_y d) = k
     ∧ length (valid_x d) = 3 - k ∧ length (valid_y d) = 3 - k
     ∧ length (valid_y d) + length (test_y d) = 3
     ∧ (∀ i, i < k → test_x d !! i = mat_X test !! i
                    ∧ test_y d !! i = mat_y test !! i)
     ∧ (∀ j, valid_x d !! j = mat_X test !! (k + j)
           ∧ valid_y d !! j = mat_y test !! (k + j)).
Proof.
  intros test.
  apply (Dataset_init_partition {| mat_X := []; mat_y := [] |} test (1 # 3)
           false None 3); reflexivity.
Defined.

(** ** Slices, index arrays and loops *)

Lemma take_indices_length {A} (a : list A) (idx : list nat) (vs : list A) :
  take_indices a idx = Ok vs → length vs = length idx.
Proof.
  revert vs. induction idx as [|i idx IH]; intros vs; simpl.
  - intros [= <-]. reflexivity.
  - destruct (a !! i) as [v|]; [| discriminate].
    intros H. apply bind_Ok in H as (ws & Hws & [= <-]).
    simpl. f_equal. apply IH. exact Hws.
Qed.

Lemma take_indices_lookup {A} (a : list A) (idx : list nat) (vs : list A) :
  take_indices a idx = Ok vs →
  ∀ j v, vs !! j = Some v → ∃ i, idx !! j = Some i ∧ a !! i = Some v.
Proof.
  revert vs. induction idx as [|i idx IH]; intros vs; simpl.
  - intros [= <-] j v Hj. destruct j; discriminate.
  - destruct (a !! i) as [w|] eqn:Hi; [| discriminate].
    intros H. apply bind_Ok in H as (ws & Hws & [= <-]).
    intros [|j] v Hj; simpl in Hj.
    + injection Hj as <-. exists i. split; [reflexivity | exact Hi].
    + apply (IH ws Hws j v Hj).
Qed.

Lemma take_indices_total {A} (a : list A) (idx : list nat) :
  Forall (fun i => i < length a) idx → ∃ vs, take_indices a idx = Ok vs.
Proof.
  induction 1 as [|i idx Hi _ [vs IH]]; simpl; [eauto |].
  destruct (lookup_lt_is_Some_2 a i Hi) as [v Hv]. rewrite Hv, IH. simpl. eauto.
Qed.

Lemma collect_length {A B} (f : A → result B) (items : list A) (bs : list B) :
  collect f items = Ok bs → length bs = length items.
Proof.
  revert bs. induction items as [|a items IH]; intros bs; simpl.
  - intros [= <-]. reflexivity.
  - intros H. apply bind_Ok in H as (b & _ & H).
    apply bind_Ok in H as (bs' & Hbs & [= <-]). simpl. f_equal. apply IH, Hbs.
Qed.

Lemma collect_lookup {A B} (f : A → result B) (items : list A) (bs : list B) :
  collect f items = Ok bs →
  ∀ k b, bs !! k = Some b → ∃ a, items !! k = Some a ∧ f a = Ok b.
Proof.
  revert bs. induction items as [|a items IH]; intros bs; simpl.
  - intros [= <-] k b Hk. destruct k; discriminate.
  - intros H. apply bind_Ok in H as (b0 & Hb0 & H).
    apply bind_Ok in H as (bs' & Hbs & [= <-]).
    intros [|k] b Hk; simpl in Hk.
    + injection Hk as <-. exists a. split; [reflexivity | exact Hb0].
    + apply (IH bs' Hbs k b Hk).
Qed.

Lemma collect_total {A B} (f : A → result B) (items : list A) :
  Forall (fun a => is_ok (f a)) items → ∃ bs, collect f items = Ok bs.
Proof.
  induction 1 as [|a items [b Hb] _ [bs IH]]; simpl; [eauto |].
  rewrite Hb. simpl. rewrite IH. simpl. eauto.
Qed.

Lemma take_min_length {A} (l : list A) (n : nat) :
  take (n `min` length l) l = take n l.
Proof.
  destruct (le_lt_dec n (length l)) as [H | H].
  - rewrite Nat.min_l by exact H. reflexivity.
  - rewrite Nat.min_r by lia. rewrite !take_ge by lia. reflexivity.
Qed.

Lemma slice_bound_nonneg (n : nat) (i : Z) :
  (0 <= i)%Z → slice_bound n i = n `min` Z.to_nat i.
Proof. intros H. unfold slice_bound. destruct (i <? 0)%Z eqn:E; lia. Qed.

(** A slice from a start that is not negative reads the array from there. *)
Lemma slice_take_drop {A} (a : list A) (s len : Z) :
  (0 <= s)%Z → (0 < len)%Z →
  slice a s (s + len) = take (Z.to_nat len) (drop (Z.to_nat s) a).
Proof.
  intros Hs Hlen. unfold slice.
  rewrite !slice_bound_nonneg by lia.
  destruct (le_lt_dec (length a) (Z.to_nat s)) as [Hge | Hlt].
  - rewrite !drop_ge by lia. rewrite !take_nil. reflexivity.
  - rewrite (Nat.min_r (length a) (Z.to_nat s)) by lia.
    rewrite <- (take_min_length (drop (Z.to_nat s) a) (Z.to_nat len)).
    rewrite length_drop. f_equal. lia.
Qed.

Lemma slice_lookup {A} (a : list A) (s len : Z) (i : nat) (v : A) :
  (0 <= s)%Z → (0 < len)%Z →
  slice a s (s + len) !! i = Some v → a !! (Z.to_nat s + i) = Some v.
Proof.
  intros Hs Hlen. rewrite slice_take_drop by assumption.
  intros H. apply lookup_take_Some in H as [H _].
  rewrite lookup_drop in H. exact H.
Qed.

Lemma slice_length {A} (a : list A) (s len : Z) :
  (0 <= s)%Z → (0 < len)%Z →
  length (slice a s (s + len)) = Z.to_nat len `min` (length a - Z.to_nat s).
Proof.
  intros Hs Hlen. rewrite slice_take_drop by assumption.
  rewrite length_take, length_drop. reflexivity.
Qed.

(** The start indices of [range(0, n, step)]. *)
Lemma py_range_positive (n step : Z) :
  (0 < step)%Z →
  py_range 0 n step
  = Ok (map (fun k => (Z.of_nat k * step)%Z) (seq 0 (Z.to_nat (ceil_div n step)))).
Proof.
  intros Hstep. unfold py_range, ceil_div.
  destruct (step =? 0)%Z eqn:E0; [lia |].
  destruct (0 <? step)%Z eqn:E1; [| lia].
  f_equal. rewrite Z.sub_0_r. apply map_ext. intros k. lia.
Qed.

Lemma py_range_negative (n step : Z) :
  (step < 0)%Z → (0 <= n)%Z → py_range 0 n step = Ok [].
Proof.
  intros Hstep Hn. unfold py_range.
  destruct (step =? 0)%Z eqn:E0; [lia |].
  destruct (0 <? step)%Z eqn:E1; [lia |].
  replace (Z.to_nat ((0 - n - step - 1) / - step)) with 0%nat; [reflexivity |].
  assert ((0 - n - step - 1) / - step <= 0)%Z; [| lia].
  apply Z.lt_succ_r. apply Z.div_lt_upper_bound; lia.
Qed.

(** [ceil_div] is the ceiling of the quotient. *)
Lemma ceil_div_spec (n b : Z) :
  (0 < b)%Z →
  ((ceil_div n b - 1) * b < n ∧ n <= ceil_div n b * b)%Z.
Proof.
  intros Hb. unfold ceil_div.
  pose proof (Z.div_mod (n + b - 1) b ltac:(lia)) as Hdm.
  pose proof (Z.mod_pos_bound (n + b - 1) b Hb) as Hm.
  nia.
Qed.

(** ** The slices of one pass over the training set *)

Lemma concat_chunks {A} (a : list A) (b c : nat) :
  concat (map (fun k => take b (drop (k * b) a)) (seq 0 c)) = take (c * b) a.
Proof.
  induction c as [|c IH]; [reflexivity |].
  rewrite seq_S, map_app, concat_app, IH. simpl.
  rewrite app_nil_r, take_take_drop. f_equal. lia.
Qed.

Lemma batch_slices_positive (self : Dataset) (batch_size : Z) :
  (0 < batch_size)%Z →
  batch_slices self batch_size
  = Ok (map (fun k => (take (Z.to_nat batch_size)
                         (drop (k * Z.to_nat batch_size) (train_x self)),
                       take (Z.to_nat batch_size)
                         (drop (k * Z.to_nat batch_size) (train_y self))))
          (seq 0 (Z.to_nat (ceil_div (Z.of_nat (length (train_y self))) batch_size)))).
Proof.
  intros Hbs. unfold batch_slices. rewrite py_range_positive by exact Hbs.
  simpl. f_equal. rewrite map_map. apply map_ext. intros k.
  rewrite !slice_take_drop by lia.
  replace (Z.to_nat (Z.of_nat k * batch_size)) with (k * Z.to_nat batch_size) by lia.
  reflexivity.
Qed.

(** On a training set of [n] images and [n] labels, the loop of [batches]
    cuts [ceil (n / batch_size)] consecutive slices that together are the
    whole set; a slice holds as many labels as images, never none, and only
    the last one may hold fewer than [batch_size]. *)
Lemma batch_slices_cover (self : Dataset) (batch_size : Z) (n : nat) :
  (0 < batch_size)%Z →
  length (train_x self) = n → length (train_y self) = n →
  ∃ xys, batch_slices self batch_size = Ok xys
       ∧ Z.of_nat (length xys) = ceil_div (Z.of_nat n) batch_size
       ∧ concat (map fst xys) = train_x self
       ∧ concat (map snd xys) = train_y self
       ∧ ∀ k x y, xys !! k = Some (x, y) →
           length x = length y
           ∧ (0 < Z.of_nat (length x) <= batch_size)%Z
           ∧ (k + 1 < length xys → Z.of_nat (length x) = batch_size).
Proof.
  intros Hbs Hx Hy.
  pose proof (ceil_div_spec (Z.of_nat n) batch_size Hbs) as [Hlo Hhi].
  assert (Hc0 : (0 <= ceil_div (Z.of_nat n) batch_size)%Z).
  { unfold ceil_div. apply Z.div_pos; lia. }
  eexists. split; [apply batch_slices_positive; exact Hbs |].
  rewrite Hy. set (b := Z.to_nat batch_size).
  set (c := Z.to_nat (ceil_div (Z.of_nat n) batch_size)).
  assert (Hcover : n ≤ c * b) by (subst b c; nia).
  split; [| split; [| split]].
  - rewrite length_map, length_seq. subst c. lia.
  - rewrite map_map. simpl. rewrite concat_chunks. apply take_ge. lia.
  - rewrite map_map. simpl. rewrite concat_chunks. apply take_ge. lia.
  - intros k x y Hk. rewrite length_map, length_seq.
    rewrite lookup_map in Hk.
    destruct (seq 0 c !! k) as [k'|] eqn:Hseq; [| discriminate].
    apply lookup_seq in Hseq as [-> Hkc]. simpl in Hk. injection Hk as <- <-.
    rewrite !length_take, !length_drop, Hx, Hy.
    assert (k * b < n) by (subst b c; nia).
    split; [reflexivity |]. split; [subst b; lia |].
    intros Hnext. assert ((k + 1) * b ≤ n) by (subst b c; nia).
    subst b. nia.
Qed.

Section BatchFacts.

Variable rng : Type.
Variable np_random_shuffle : list nat → rng → list nat * rng.

(** Without shuffling the object is left as it is and the module-level
    name is not read. *)
Lemma batches_unshuffled (dataset : binding) (self : Dataset) (batch_size : Z)
    (g : rng) :
  shuffle self = false →
  batches rng np_random_shuffle dataset self batch_size g
  = (yielded ← batch_loop self batch_size; Ok (self, yielded, g)).
Proof. intros Hsh. unfold batches. rewrite Hsh. reflexivity. Qed.

(** What the loop yields: scaled slices, cut at starts that are not
    negative. *)
Lemma batch_loop_yields (self : Dataset) (batch_size : Z)
    (yielded : list (list (list npfloat) * list Z)) :
  batch_loop self batch_size = Ok yielded →
  ∀ k sx ys, yielded !! k = Some (sx, ys) →
    ∃ xs ii, scaler self xs = Ok sx
      ∧ (0 <= ii)%Z ∧ (0 < batch_size)%Z
      ∧ xs = slice (train_x self) ii (ii + batch_size)
      ∧ ys = slice (train_y self) ii (ii + batch_size).
Proof.
  intros H. unfold batch_loop in H. apply bind_Ok in H as (nb & Hnb & H).
  apply bind_Ok in H as (xys & Hxys & Hylds).
  intros k sx ys Hk.
  destruct (collect_lookup _ _ _ Hylds k (sx, ys) Hk) as ([x y] & Hxy & Hs).
  apply bind_Ok in Hs as (sx' & Hsx & [= <- <-]).
  unfold py_floordiv in Hnb. destruct (batch_size =? 0)%Z eqn:E0; [discriminate |].
  unfold batch_slices in Hxys. apply bind_Ok in Hxys as (starts & Hst & [= <-]).
  rewrite lookup_map in Hxy.
  destruct (starts !! k) as [ii|] eqn:Hii; [| discriminate].
  simpl in Hxy. injection Hxy as <- <-.
  destruct (Z_lt_le_dec batch_size 0) as [Hneg | Hpos].
  - rewrite py_range_negative in Hst by lia. injection Hst as <-.
    destruct k; discriminate.
  - assert (Hbs : (0 < batch_size)%Z) by lia.
    rewrite py_range_positive in Hst by exact Hbs. injection Hst as <-.
    rewrite lookup_map in Hii.
    destruct (seq 0 _ !! k) as [k'|]; [| discriminate].
    simpl in Hii. injection Hii as <-.
    eexists _, (Z.of_nat k' * batch_size)%Z.
    split; [exact Hsx |]. repeat split; [lia | exact Hbs].
Qed.

Lemma scale_rows (x : list image) (fr : Q * Q) (sx : list (list npfloat)) :
  scale x fr = Ok sx → ∃ f, sx = map (map f) x.
Proof.
  unfold scale. intros H. apply bind_Ok in H as (lo & _ & H).
  apply bind_Ok in H as (lo' & _ & H). destruct fr as [mn mx].
  injection H as <-. eexists. rewrite map_map.
  apply map_ext. intros img. rewrite map_map. reflexivity.
Qed.

(** C5.  Whenever [batches] yields a pair of an image batch and a label
    batch, the image batch is the scaled form of a slice of images that
    lines up with the label batch: the image and the label at one index of
    the pair are the image and the label at one index of the training set.
    With shuffling, the training images and the training labels of the
    object are both re-indexed by the one index array the shuffle
    returned. *)
Theorem batches_pairing (dataset : binding) (self : Dataset) (batch_size : Z)
    (g : rng) (self' : Dataset)
    (yielded : list (list (list npfloat) * list Z)) (g' : rng) :
  batches rng np_random_shuffle dataset self batch_size g = Ok (self', yielded, g') →
  (if shuffle self
   then ∃ d, lookup_dataset dataset self = Ok d
        ∧ let idx := (np_random_shuffle (seq 0 (length (train_x d))) g).1 in
          take_indices (train_x self) idx = Ok (train_x self')
          ∧ take_indices (train_y self) idx = Ok (train_y self')
   else self' = self)
  ∧ ∀ k sx ys, yielded !! k = Some (sx, ys) →
      ∃ xs, scaler self xs = Ok sx
        ∧ (∀ fr, scaler self = (fun x => scale x fr) → ∃ f, sx = map (map f) xs)
        ∧ (length (train_x self) = length (train_y self) → length xs = length ys)
        ∧ ∀ i img lab, xs !! i = Some img → ys !! i = Some lab →
            ∃ j, train_x self !! j = Some img ∧ train_y self !! j = Some lab.
Proof.
  intros H. unfold batches in H.
  apply bind_Ok in H as ([self1 g1] & Hsh & H).
  apply bind_Ok in H as (ylds & Hloop & [= <- <- <-]).
  pose proof (batch_loop_yields _ _ _ Hloop) as Hyields.
  clear Hloop. rename Hyields into Hloop.
  destruct (shuffle self) eqn:Eshuffle.
  - apply bind_Ok in Hsh as (d & Hd & Hsh).
    destruct (np_random_shuffle (seq 0 (length (train_x d))) g) as [idx g2] eqn:Eidx.
    apply bind_Ok in Hsh as (tx & Htx & Hsh).
    apply bind_Ok in Hsh as (ty & Hty & [= <- <-]).
    split.
    { exists d. split; [exact Hd |]. rewrite Eidx. simpl. split; assumption. }
    intros k sx ys Hk.
    destruct (Hloop k sx ys Hk) as (xs & ii & Hsx & Hii & Hbs & -> & ->).
    simpl in *. exists (slice tx ii (ii + batch_size)).
    split; [exact Hsx |]. split; [| split].
    + intros fr Efr. rewrite Efr in Hsx. apply (scale_rows _ fr), Hsx.
    + intros _. rewrite !slice_length by assumption.
      rewrite (take_indices_length _ _ _ Htx), (take_indices_length _ _ _ Hty).
      reflexivity.
    + intros i img lab Hi Hl.
      apply slice_lookup in Hi; [| assumption ..].
      apply slice_lookup in Hl; [| assumption ..].
      destruct (take_indices_lookup _ _ _ Htx _ _ Hi) as (a & Ha & Himg).
      destruct (take_indices_lookup _ _ _ Hty _ _ Hl) as (a' & Ha' & Hlab).
      rewrite Ha in Ha'. injection Ha' as <-.
      exists a. split; assumption.
  - injection Hsh as <- <-.
    split; [reflexivity |].
    intros k sx ys Hk.
    destruct (Hloop k sx ys Hk) as (xs & ii & Hsx & Hii & Hbs & -> & ->).
    exists (slice (train_x self) ii (ii + batch_size)).
    split; [exact Hsx |]. split; [| split].
    + intros fr Efr. rewrite Efr in Hsx. apply (scale_rows _ fr), Hsx.
    + intros E. rewrite !slice_length by assumption. rewrite E. reflexivity.
    + intros i img lab Hi Hl.
      apply slice_lookup in Hi; [| assumption ..].
      apply slice_lookup in Hl; [| assumption ..].
      exists (Z.to_nat ii + i). split; assumption.
Qed.

(** On [n] images and [n] labels and with a scaler that accepts every
    slice that is not empty, the loop yields [ceil (n / batch_size)] batches,
    cut in order from the training set. *)
Lemma batch_loop_cover (self : Dataset) (batch_size : Z) (n : nat) :
  (0 < batch_size)%Z →
  length (train_x self) = n → length (train_y self) = n →
  (∀ x, x ≠ [] → is_ok (scaler self x)) →
  ∃ yielded xys,
    batch_loop self batch_size = Ok yielded
    ∧ batch_slices self batch_size = Ok xys
    ∧ Z.of_nat (length yielded) = ceil_div (Z.of_nat n) batch_size
    ∧ concat (map fst xys) = train_x self
    ∧ concat (map snd yielded) = train_y self
    ∧ ∀ k sx ys, yielded !! k = Some (sx, ys) →
        ∃ x, xys !! k = Some (x, ys) ∧ scaler self x = Ok sx
           ∧ length x = length ys
           ∧ (0 < Z.of_nat (length ys) <= batch_size)%Z
           ∧ (k + 1 < length yielded → Z.of_nat (length ys) = batch_size).
Proof.
  intros Hbs Hx Hy Hscaler.
  destruct (batch_slices_cover self batch_size n Hbs Hx Hy)
    as (xys & Hxys & Hlen & Hcx & Hcy & Hsizes).
  assert (Hall : Forall (fun a : list image * list Z =>
                   is_ok (let '(x, y) := a in sx ← scaler self x; Ok (sx, y))) xys).
  { apply Forall_lookup. intros k [x y] Hk.
    destruct (Hsizes k x y Hk) as (_ & Hpos & _).
    destruct (Hscaler x) as [sx Hsx].
    - intros ->. simpl in Hpos. lia.
    - exists (sx, y). rewrite Hsx. reflexivity. }
  destruct (collect_total _ xys Hall) as [yielded Hyl].
  pose proof (collect_length _ _ _ Hyl) as Hlen'.
  assert (Hrow : ∀ k sx ys, yielded !! k = Some (sx, ys) →
                 ∃ x, xys !! k = Some (x, ys) ∧ scaler self x = Ok sx).
  { intros k sx ys Hk.
    destruct (collect_lookup _ _ _ Hyl k (sx, ys) Hk) as ([x y] & Hxy & Hs).
    apply bind_Ok in Hs as (sx' & Hsx & [= -> ->]). eauto. }
  exists yielded, xys. split; [| split; [| split; [| split; [| split]]]].
  - unfold batch_loop, py_floordiv.
    destruct (batch_size =? 0)%Z eqn:E0; [lia |]. simpl.
    rewrite Hxys. simpl. exact Hyl.
  - exact Hxys.
  - rewrite Hlen'. exact Hlen.
  - exact Hcx.
  - rewrite <- Hcy. f_equal. apply list_eq. intros k.
    rewrite !lookup_map.
    destruct (yielded !! k) as [[sx ys]|] eqn:Hk.
    + destruct (Hrow k sx ys Hk) as (x & Hxy & _). rewrite Hxy. reflexivity.
    + apply lookup_ge_None in Hk. rewrite Hlen' in Hk.
      apply lookup_ge_None in Hk. rewrite Hk. reflexivity.
  - intros k sx ys Hk. destruct (Hrow k sx ys Hk) as (x & Hxy & Hsx).
    destruct (Hsizes k x ys Hxy) as (Hl & Hpos & Hfull).
    exists x. rewrite Hlen', <- Hl. repeat split; try assumption; lia.
Qed.

(** Without shuffling, one pass leaves the object as it is and yields
    those batches. *)
Lemma batches_unshuffled_cover (dataset : binding) (self : Dataset)
    (batch_size : Z) (g : rng) (n : nat) :
  shuffle self = false → (0 < batch_size)%Z →
  length (train_x self) = n → length (train_y self) = n →
  (∀ x, x ≠ [] → is_ok (scaler self x)) →
  ∃ yielded xys,
    batches rng np_random_shuffle dataset self batch_size g = Ok (self, yielded, g)
    ∧ batch_slices self batch_size = Ok xys
    ∧ Z.of_nat (length yielded) = ceil_div (Z.of_nat n) batch_size
    ∧ concat (map fst xys) = train_x self
    ∧ concat (map snd yielded) = train_y self
    ∧ ∀ k sx ys, yielded !! k = Some (sx, ys) →
        ∃ x, xys !! k = Some (x, ys) ∧ scaler self x = Ok sx
           ∧ length x = length ys
           ∧ (0 < Z.of_nat (length ys) <= batch_size)%Z
           ∧ (k + 1 < length yielded → Z.of_nat (length ys) = batch_size).
Proof.
  intros Hsh Hbs Hx Hy Hscaler.
  destruct (batch_loop_cover self batch_size n Hbs Hx Hy Hscaler)
    as (yielded & xys & Hloop & Hrest).
  exists yielded, xys. split; [| exact Hrest].
  rewrite batches_unshuffled by exact Hsh. rewrite Hloop. reflexivity.
Qed.

End BatchFacts.

Lemma batches_pairing_witness :
  ∃ self' yielded g',
    batches unit reverse_shuffle Self (four_samples true) 3 tt
    = Ok (self', yielded, g')
    ∧ train_y self' = [4; 3; 2; 1]%Z
    ∧ (∃ d, lookup_dataset Self (four_samples true) = Ok d
          ∧ let idx := (reverse_shuffle (seq 0 (length (train_x d))) tt).1 in
            take_indices (train_x (four_samples true)) idx = Ok (train_x self')
            ∧ take_indices (train_y (four_samples true)) idx = Ok (train_y self'))
    ∧ ∀ k sx ys, yielded !! k = Some (sx, ys) →
        ∃ xs, scaler (four_samples true) xs = Ok sx
          ∧ (∀ fr, scaler (four_samples true) = (fun x => scale x fr) →
             ∃ f, sx = map (map f) xs)
          ∧ (length (train_x (four_samples true))
             = length (train_y (four_samples true)) → length xs = length ys)
          ∧ ∀ i img lab, xs !! i = Some img → ys !! i = Some lab →
              ∃ j, train_x (four_samples true) !! j = Some img
                   ∧ train_y (four_samples true) !! j = Some lab.
Proof.
  eexists _, _, _. split; [vm_compute; reflexivity |].
  split; [reflexivity |].
  apply (batches_pairing unit reverse_shuffle Self (four_samples true) 3 tt _ _ tt).
  vm_compute. reflexivity.
Defined.

(** ** One pass over 128 samples, and a pass under a foreign [dataset] *)

Example batches_128_by_64 :
  ∃ yielded,
    batches unit reverse_shuffle Self
      (training_set (repeat [0%Q; 255%Q] 128) (repeat 1%Z 128) false) 64 tt
    = Ok (training_set (repeat [0%Q; 255%Q] 128) (repeat 1%Z 128) false,
          yielded, tt)
    ∧ length yielded = 2.
Proof. eexists. split; vm_compute; reflexivity. Qed.

(** C4 at an object whose shuffling reads another object.  The object holds
    four samples and shuffles; the module-level name [dataset] is bound to
    an object of two samples.  A pass with batch size 2 then yields one
    batch, not [ceil (4 / 2) = 2], and the labels 3 and 4 are in no batch;
    with the name unbound the pass raises [NameError] before any batch.
    The same object without shuffling yields the two batches. *)
Theorem batches_foreign_dataset_drops_samples :
  (∃ self' sx,
     batches unit reverse_shuffle (Other two_samples) (four_samples true) 2 tt
     = Ok (self', [(sx, [2; 1]%Z)], tt)
     ∧ train_y self' = [2; 1]%Z)
  ∧ ceil_div (Z.of_nat (length (train_y (four_samples true)))) 2 = 2%Z
  ∧ batches unit reverse_shuffle Unbound (four_samples true) 2 tt = Raise NameError
  ∧ (∃ sx1 sx2,
       batches unit reverse_shuffle (Other two_samples) (four_samples false) 2 tt
       = Ok (four_samples false, [(sx1, [1; 2]%Z); (sx2, [3; 4]%Z)], tt)).
Proof.
  split; [| split; [| split]].
  - eexists _, _. split; vm_compute; reflexivity.
  - reflexivity.
  - reflexivity.
  - eexists _, _. vm_compute. reflexivity.
Qed.

(** ** The losses *)

Section LossFacts.
Local Open Scope R_scope.

Lemma zip_logits_const (z : R) (logits probs : list R) :
  length probs = length logits →
  zip_logits logits (map (fun _ => z) probs)
  = map (fun x => logit_cross_entropy x z) logits.
Proof.
  revert probs. induction logits as [|x logits IH]; intros [|p probs] Hlen;
    simpl in *; try reflexivity; try discriminate.
  f_equal. apply IH. congruence.
Qed.

Lemma cross_entropy_with_constant_labels (z : R) (logits probs : list R) :
  length probs = length logits →
  tf_nn_sigmoid_cross_entropy_with_logits logits (map (fun _ => z) probs)
  = Ok (map (fun x => logit_cross_entropy x z) logits).
Proof.
  intros Hlen. unfold tf_nn_sigmoid_cross_entropy_with_logits.
  rewrite length_map, Hlen, Nat.eqb_refl. f_equal.
  apply zip_logits_const. exact Hlen.
Qed.

Lemma softplus_nonneg (t : R) : 0 <= ln (1 + exp t).
Proof.
  rewrite <- ln_1. pose proof (exp_pos t).
  destruct (Rle_lt_or_eq_dec 1 (1 + exp t)) as [Hlt | Heq]; [lra | |].
  - left. apply ln_increasing; lra.
  - rewrite <- Heq. right. reflexivity.
Qed.

Lemma logit_cross_entropy_nonneg (x z : R) :
  z = 0 ∨ z = 1 → 0 <= logit_cross_entropy x z.
Proof.
  intros Hz. unfold logit_cross_entropy.
  pose proof (softplus_nonneg (- Rabs x)).
  pose proof (Rmax_l x 0). pose proof (Rmax_r x 0).
  destruct Hz as [-> | ->]; lra.
Qed.

(** [ln (1 + exp x) = x + ln (1 + exp (- x))] *)
Lemma softplus_reflect (x : R) : ln (1 + exp x) = x + ln (1 + exp (- x)).
Proof.
  pose proof (exp_pos x). pose proof (exp_pos (- x)).
  rewrite <- (ln_exp x) at 2. rewrite <- ln_mult by lra.
  f_equal. rewrite Rmult_plus_distr_l, <- exp_plus.
  replace (x + - x) with 0 by lra. rewrite exp_0. lra.
Qed.

Lemma stable_softplus (x : R) :
  Rmax x 0 + ln (1 + exp (- Rabs x)) = x + ln (1 + exp (- x)).
Proof.
  destruct (Rle_dec 0 x) as [Hx | Hx].
  - rewrite Rmax_left, Rabs_right by lra. reflexivity.
  - rewrite Rmax_right, Rabs_left by lra.
    rewrite Ropp_involutive, softplus_reflect. lra.
Qed.

Lemma ln_sigmoid (x : R) : ln (sigmoid x) = - ln (1 + exp (- x)).
Proof.
  unfold sigmoid. pose proof (exp_pos (- x)).
  unfold Rdiv. rewrite Rmult_1_l. apply ln_Rinv. lra.
Qed.

Lemma ln_one_minus_sigmoid (x : R) :
  ln (1 - sigmoid x) = - x - ln (1 + exp (- x)).
Proof.
  unfold sigmoid. pose proof (exp_pos (- x)).
  replace (1 - 1 / (1 + exp (- x))) with (exp (- x) * / (1 + exp (- x)))
    by (field; lra).
  rewrite ln_mult; [| lra | apply Rinv_0_lt_compat; lra].
  rewrite ln_exp, ln_Rinv by lra. lra.
Qed.

(** The logit form is the cross-entropy of the sigmoid of the logit. *)
Lemma logit_form_is_cross_entropy (x z : R) :
  logit_cross_entropy x z = cross_entropy (sigmoid x) z.
Proof.
  unfold logit_cross_entropy, cross_entropy.
  rewrite ln_sigmoid, ln_one_minus_sigmoid.
  pose proof (stable_softplus x). lra.
Qed.

Lemma reduce_sum_nonneg (t : list R) :
  Forall (fun v => 0 <= v) t → 0 <= tf_reduce_sum t.
Proof.
  induction 1 as [|v t Hv _ IH]; simpl; [lra |]. lra.
Qed.

Lemma reduce_mean_nonneg (t : list R) :
  t ≠ [] → Forall (fun v => 0 <= v) t → 0 <= tf_reduce_mean t.
Proof.
  intros Hne Hall. unfold tf_reduce_mean.
  apply Rmult_le_pos; [apply reduce_sum_nonneg, Hall |].
  left. apply Rinv_0_lt_compat. apply lt_0_INR.
  destruct t; [congruence | simpl; lia].
Qed.

Variable tensor : Type.
Variable ztensor : Type.
Variable generator : ztensor → Z → bool → R → bool → tensor.
Variable discriminator : tensor → bool → R → list R * list R.

(** The value of the loss, from the logits the discriminator returns. *)
Lemma model_loss_value (input_real : tensor) (input_z : ztensor) (output_dim : Z)
    (alpha : R) (pr lr pf lf : list R) :
  discriminator input_real false alpha = (pr, lr) →
  discriminator (generator input_z output_dim false alpha true) true alpha
  = (pf, lf) →
  length pr = length lr → length pf = length lf →
  model_loss tensor ztensor generator discriminator input_real input_z
    output_dim alpha
  = Ok (tf_reduce_mean (map (fun x => logit_cross_entropy x 1) lr)
        + tf_reduce_mean (map (fun x => logit_cross_entropy x 0) lf),
        tf_reduce_mean (map (fun x => logit_cross_entropy x 1) lf)).
Proof.
  intros Hr Hf Hlr Hlf. unfold model_loss. rewrite Hr, Hf.
  unfold tf_ones_like, tf_zeros_like.
  rewrite !cross_entropy_with_constant_labels by assumption.
  reflexivity.
Qed.

(** C1.  [model_loss] returns the pair [(d_loss, g_loss)]: [d_loss] is the
    mean over the real batch of the sigmoid cross-entropy of the logits
    against the label one, plus the mean over the generated batch against
    the label zero; [g_loss] is the mean over the generated batch against the
    label one.  Each term is computed from the logit, by
    [max(x, 0) - x * z + log(1 + exp(-abs(x)))], and equals the cross-entropy
    of the sigmoid of the logit; the probabilities the discriminator returns
    only give the labels their shape. *)
Theorem model_loss_logit_cross_entropy (input_real : tensor) (input_z : ztensor)
    (output_dim : Z) (alpha : R) (pr lr pf lf : list R) :
  discriminator input_real false alpha = (pr, lr) →
  discriminator (generator input_z output_dim false alpha true) true alpha
  = (pf, lf) →
  length pr = length lr → length pf = length lf →
  ∃ d_loss g_loss,
    model_loss tensor ztensor generator discriminator input_real input_z
      output_dim alpha = Ok (d_loss, g_loss)
    ∧ d_loss = tf_reduce_mean (map (fun x => logit_cross_entropy x 1) lr)
               + tf_reduce_mean (map (fun x => logit_cross_entropy x 0) lf)
    ∧ g_loss = tf_reduce_mean (map (fun x => logit_cross_entropy x 1) lf)
    ∧ d_loss = tf_reduce_mean (map (fun x => cross_entropy (sigmoid x) 1) lr)
               + tf_reduce_mean (map (fun x => cross_entropy (sigmoid x) 0) lf)
    ∧ g_loss = tf_reduce_mean (map (fun x => cross_entropy (sigmoid x) 1) lf).
Proof.
  intros Hr Hf Hlr Hlf. eexists _, _.
  split; [apply (model_loss_value _ _ _ _ pr lr pf lf); assumption |].
  split; [reflexivity |]. split; [reflexivity |].
  assert (E : ∀ z l, map (fun x => logit_cross_entropy x z) l
                     = map (fun x => cross_entropy (sigmoid x) z) l).
  { intros z l. apply map_ext. intros x. apply logit_form_is_cross_entropy. }
  rewrite !E. split; reflexivity.
Qed.

(** C9.  On batches that are not empty, both losses [model_loss] returns are
    at least zero, because every cross-entropy term against the label zero
    or one is. *)
Theorem model_loss_nonneg (input_real : tensor) (input_z : ztensor)
    (output_dim : Z) (alpha : R) (pr lr pf lf : list R) :
  discriminator input_real false alpha = (pr, lr) →
  discriminator (generator input_z output_dim false alpha true) true alpha
  = (pf, lf) →
  length pr = length lr → length pf = length lf →
  lr ≠ [] → lf ≠ [] →
  ∃ d_loss g_loss,
    model_loss tensor ztensor generator discriminator input_real input_z
      output_dim alpha = Ok (d_loss, g_loss)
    ∧ 0 <= d_loss ∧ 0 <= g_loss.
Proof.
  intros Hr Hf Hlr Hlf Hnr Hnf. eexists _, _.
  split; [apply (model_loss_value _ _ _ _ pr lr pf lf); assumption |].
  assert (Hterm : ∀ z l, z = 0 ∨ z = 1 → l ≠ [] →
            0 <= tf_reduce_mean (map (fun x => logit_cross_entropy x z) l)).
  { intros z l Hz Hl. apply reduce_mean_nonneg.
    - destruct l; [congruence | discriminate].
    - apply Forall_map, Forall_forall. intros x _.
      apply logit_cross_entropy_nonneg, Hz. }
  pose proof (Hterm 1 lr (or_intror eq_refl) Hnr).
  pose proof (Hterm 0 lf (or_introl eq_refl) Hnf).
  pose proof (Hterm 1 lf (or_intror eq_refl) Hnf).
  split; lra.
Qed.

End LossFacts.

Lemma model_loss_logit_cross_entropy_witness :
  ∃ d_loss g_loss,
    model_loss (list R) (list R) identity_generator identity_discriminator
      [2; -1]%R [0; 3]%R 3 default_alpha = Ok (d_loss, g_loss)
    ∧ d_loss = (tf_reduce_mean (map (fun x => logit_cross_entropy x 1) [2; -1])
               + tf_reduce_mean (map (fun x => logit_cross_entropy x 0) [0; 3]))%R
    ∧ g_loss = tf_reduce_mean (map (fun x => logit_cross_entropy x 1) [0; 3]%R)
    ∧ d_loss = (tf_reduce_mean (map (fun x => cross_entropy (sigmoid x) 1) [2; -1])
               + tf_reduce_mean (map (fun x => cross_entropy (sigmoid x) 0) [0; 3]))%R
    ∧ g_loss = tf_reduce_mean (map (fun x => cross_entropy (sigmoid x) 1) [0; 3]%R).
Proof.
  apply (model_loss_logit_cross_entropy (list R) (list R) identity_generator
           identity_discriminator [2; -1]%R [0; 3]%R 3 default_alpha
           (map sigmoid [2; -1]%R) [2; -1]%R (map sigmoid [0; 3]%R) [0; 3]%R);
    reflexivity.
Defined.

Lemma model_loss_nonneg_witness :
  ∃ d_loss g_loss,
    model_loss (list R) (list R) identity_generator identity_discriminator
      [2; -1]%R [0; 3]%R 3 default_alpha = Ok (d_loss, g_loss)
    ∧ (0 <= d_loss)%R ∧ (0 <= g_loss)%R.
Proof.
  apply (model_loss_nonneg (list R) (list R) identity_generator
           identity_discriminator [2; -1]%R [0; 3]%R 3 default_alpha
           (map sigmoid [2; -1]%R) [2; -1]%R (map sigmoid [0; 3]%R) [0; 3]%R);
    try reflexivity; discriminate.
Defined.

(** ** The two training operations *)

Lemma foldr_insert_other {V} (f : string → V) (base : gmap string V)
    (names : list string) (n : string) :
  n ∉ names →
  foldr (fun var acc => <[var := f var]> acc) base names !! n = base !! n.
Proof.
  induction names as [|a names IH]; intros Hn; simpl; [reflexivity |].
  apply not_elem_of_cons in Hn as [Hne Hn].
  rewrite lookup_insert_ne by congruence. apply IH, Hn.
Qed.

Lemma foldr_insert_member {V} (f : string → V) (base : gmap string V)
    (names : list string) (n : string) :
  n ∈ names →
  foldr (fun var acc => <[var := f var]> acc) base names !! n = Some (f n).
Proof.
  induction names as [|a names IH]; intros Hn; simpl.
  - inversion Hn.
  - destruct (decide (a = n)) as [-> | Hne].
    + apply lookup_insert_eq.
    + rewrite lookup_insert_ne by exact Hne. apply IH.
      apply elem_of_cons in Hn as [-> | Hn]; [congruence | exact Hn].
Qed.

Lemma elem_of_bool_filter (p : string → bool) (l : list string) (n : string) :
  n ∈ List.filter p l ↔ n ∈ l ∧ p n = true.
Proof. rewrite !list_elem_of_In. apply filter_In. Qed.

Section OptimizerFacts.

Variable value : Type.
Variable feed_dict : Type.
Variable loss_tensor : Type.
Variable trainable_variables : list string.
Variable update_ops : operation value feed_dict.
Variable adam_value :
  loss_tensor → R → R → feed_dict → gmap string value → string → value.
Variable adam_slots : loss_tensor → R → R → list string → operation value feed_dict.

(** The running statistics and the optimiser's bookkeeping are variables
    that are not trainable. *)
Hypothesis update_ops_frame : ∀ fd vars n,
  n ∈ trainable_variables → update_ops fd vars !! n = vars !! n.
Hypothesis adam_slots_frame : ∀ loss lr b1 var_list fd vars n,
  n ∈ trainable_variables → adam_slots loss lr b1 var_list fd vars !! n = vars !! n.

Lemma minimize_frame (prefix : string) (loss : loss_tensor) (lr b1 : R)
    (fd : feed_dict) (vars : gmap string value) (n : string) :
  n ∈ trainable_variables → startswith n prefix = false →
  control_dependencies value feed_dict update_ops
    (AdamOptimizer_minimize value feed_dict loss_tensor adam_value adam_slots
       lr b1 loss
       (List.filter (fun var => startswith var prefix) trainable_variables))
    fd vars !! n = vars !! n.
Proof using update_ops_frame adam_slots_frame.
  intros Hn Hpre. unfold control_dependencies, AdamOptimizer_minimize.
  rewrite foldr_insert_other.
  - rewrite adam_slots_frame by exact Hn. apply update_ops_frame, Hn.
  - intros Hin. apply elem_of_bool_filter in Hin as [_ Hp]. congruence.
Qed.

(** The variables of the network's own name space take the Adam value. *)
Lemma minimize_updates (prefix : string) (loss : loss_tensor) (lr b1 : R)
    (fd : feed_dict) (vars : gmap string value) (n : string) :
  n ∈ trainable_variables → startswith n prefix = true →
  control_dependencies value feed_dict update_ops
    (AdamOptimizer_minimize value feed_dict loss_tensor adam_value adam_slots
       lr b1 loss
       (List.filter (fun var => startswith var prefix) trainable_variables))
    fd vars !! n
  = Some (adam_value loss lr b1 fd (update_ops fd vars) n).
Proof using Type.
  intros Hn Hpre. unfold control_dependencies, AdamOptimizer_minimize.
  apply (foldr_insert_member
           (fun var => adam_value loss lr b1 fd (update_ops fd vars) var)).
  apply elem_of_bool_filter. split; assumption.
Qed.

(** C6.  Of the two operations [model_opt] returns, the discriminator's
    leaves every trainable variable whose name does not start with
    ['discriminator'] as it is, and the generator's leaves every trainable
    variable whose name does not start with ['generator'] as it is. *)
Theorem model_opt_frame (d_loss g_loss : loss_tensor) (learning_rate beta1 : R)
    (fd : feed_dict) (vars : gmap string value) (n : string) :
  n ∈ trainable_variables →
  (startswith n "discriminator" = false →
   (model_opt value feed_dict loss_tensor trainable_variables update_ops
      adam_value adam_slots d_loss g_loss learning_rate beta1).1 fd vars !! n
   = vars !! n)
  ∧ (startswith n "generator" = false →
     (model_opt value feed_dict loss_tensor trainable_variables update_ops
        adam_value adam_slots d_loss g_loss learning_rate beta1).2 fd vars !! n
     = vars !! n).
Proof using update_ops_frame adam_slots_frame.
  intros Hn. split; intros Hpre; simpl.
  - apply minimize_frame; assumption.
  - apply minimize_frame; assumption.
Qed.

End OptimizerFacts.

Lemma toy_update_ops_frame (fd : unit) (vars : gmap string Z) (n : string) :
  n ∈ toy_trainable → toy_update_ops fd vars !! n = vars !! n.
Proof.
  intros Hn. unfold toy_update_ops. apply lookup_insert_ne.
  intros <-. unfold toy_trainable in Hn.
  repeat (apply elem_of_cons in Hn as [Hn | Hn]; [discriminate |]).
  inversion Hn.
Qed.

Lemma toy_adam_slots_frame (loss : unit) (lr b1 : R) (var_list : list string)
    (fd : unit) (vars : gmap string Z) (n : string) :
  n ∈ toy_trainable → toy_adam_slots loss lr b1 var_list fd vars !! n = vars !! n.
Proof.
  intros Hn. unfold toy_adam_slots. apply lookup_insert_ne.
  intros <-. unfold toy_trainable in Hn.
  repeat (apply elem_of_cons in Hn as [Hn | Hn]; [discriminate |]).
  inversion Hn.
Qed.

Example toy_discriminator_step :
  let d_opt := (model_opt Z unit unit toy_trainable toy_update_ops
                  toy_adam_value toy_adam_slots tt tt 1 1).1 in
  d_opt tt toy_vars !! "discriminator/w" = Some 6%Z
  ∧ d_opt tt toy_vars !! "generator/w" = Some 7%Z
  ∧ d_opt tt toy_vars !! "generator/moving_mean" = Some 1%Z.
Proof. repeat split; vm_compute; reflexivity. Qed.

Lemma model_opt_frame_witness :
  (startswith "generator/w" "discriminator" = false →
   (model_opt Z unit unit toy_trainable toy_update_ops toy_adam_value
      toy_adam_slots tt tt 1 1).1 tt toy_vars !! "generator/w"
   = toy_vars !! "generator/w")
  ∧ (startswith "generator/w" "generator" = false →
     (model_opt Z unit unit toy_trainable toy_update_ops toy_adam_value
        toy_adam_slots tt tt 1 1).2 tt toy_vars !! "generator/w"
     = toy_vars !! "generator/w").
Proof.
  apply (model_opt_frame Z unit unit toy_trainable toy_update_ops toy_adam_value
           toy_adam_slots toy_update_ops_frame toy_adam_slots_frame
           tt tt 1%R 1%R tt toy_vars "generator/w").
  unfold toy_trainable. right. left.
Defined.

(** ** Loops *)

Lemma for_each_app {S A} (body : S → A → result S) (l1 l2 : list A) (st : S) :
  for_each body (l1 ++ l2) st = (st' ← for_each body l1 st; for_each body l2 st').
Proof.
  revert st. induction l1 as [|a l1 IH]; intros st; simpl; [reflexivity |].
  destruct (body st a) as [st1|err]; simpl; [apply IH | reflexivity].
Qed.

(** A property that every pass through the body keeps holds at the end. *)
Lemma for_each_invariant {S A} (P : S → Prop) (body : S → A → result S)
    (items : list A) (st st' : S) :
  (∀ s a s', P s → body s a = Ok s' → P s') →
  P st → for_each body items st = Ok st' → P st'.
Proof.
  intros Hbody. revert st. induction items as [|a items IH]; intros st HP; simpl.
  - intros [= <-]. exact HP.
  - intros H. apply bind_Ok in H as (s1 & H1 & H2).
    apply (IH s1); [eapply Hbody; eassumption | exact H2].
Qed.

(** A counter that every pass through the body moves by [c]. *)
Lemma for_each_count {S A} (P : S → Prop) (m : S → Z) (c : Z)
    (body : S → A → result S) (items : list A) (st st' : S) :
  (∀ s a s', P s → body s a = Ok s' → P s' ∧ m s' = (m s + c)%Z) →
  P st → for_each body items st = Ok st' →
  P st' ∧ m st' = (m st + Z.of_nat (length items) * c)%Z.
Proof.
  intros Hbody. revert st. induction items as [|a items IH]; intros st HP; simpl.
  - intros [= <-]. split; [exact HP | lia].
  - intros H. apply bind_Ok in H as (s1 & H1 & H2).
    destruct (Hbody st a s1 HP H1) as [HP1 Hm1].
    destruct (IH s1 HP1 H2) as [HP' Hm']. split; [exact HP' | lia].
Qed.

(** A loop whose body returns under an invariant returns. *)
Lemma for_each_total {S A} (P : S → Prop) (body : S → A → result S)
    (items : list A) (st : S) :
  (∀ s a, P s → ∃ s', body s a = Ok s' ∧ P s') →
  P st → ∃ st', for_each body items st = Ok st' ∧ P st'.
Proof.
  intros Hbody. revert st. induction items as [|a items IH]; intros st HP; simpl.
  - eauto.
  - destruct (Hbody st a HP) as (s1 & H1 & HP1). rewrite H1. simpl.
    apply IH, HP1.
Qed.

(** ** The number of batches of a pass *)

Section PassFacts.

Variable rng : Type.
Variable np_random_shuffle : list nat → rng → list nat * rng.

(** [np.random.shuffle] permutes the array it is given. *)
Hypothesis shuffle_permutes : ∀ l g, (np_random_shuffle l g).1 ≡ₚ l.

Lemma batches_count (dataset : binding) (self : Dataset) (batch_size : Z)
    (g : rng) (self' : Dataset)
    (yielded : list (list (list npfloat) * list Z)) (g' : rng) :
  (0 < batch_size)%Z →
  batches rng np_random_shuffle dataset self batch_size g = Ok (self', yielded, g') →
  Z.of_nat (length yielded)
  = ceil_div (Z.of_nat (epoch_samples dataset self)) batch_size
  ∧ epoch_samples dataset self' = epoch_samples dataset self.
Proof using shuffle_permutes.
  intros Hbs H. unfold batches in H.
  apply bind_Ok in H as ([self1 g1] & Hsh & H).
  apply bind_Ok in H as (ylds & Hloop & [= <- <- <-]).
  unfold batch_loop in Hloop.
  apply bind_Ok in Hloop as (nb & _ & Hloop).
  apply bind_Ok in Hloop as (xys & Hxys & Hylds).
  rewrite (collect_length _ _ _ Hylds).
  rewrite batch_slices_positive in Hxys by exact Hbs. injection Hxys as <-.
  rewrite length_map, length_seq.
  assert (Hc0 : ∀ n, (0 <= ceil_div (Z.of_nat n) batch_size)%Z).
  { intros n. unfold ceil_div. apply Z.div_pos; lia. }
  rewrite Z2Nat.id by apply Hc0.
  unfold epoch_samples. destruct (shuffle self) eqn:Eshuffle.
  - apply bind_Ok in Hsh as (d & Hd & Hsh).
    pose proof (shuffle_permutes (seq 0 (length (train_x d))) g) as Hperm.
    destruct (np_random_shuffle (seq 0 (length (train_x d))) g) as [idx g2].
    simpl in Hperm. apply Permutation_length in Hperm. rewrite length_seq in Hperm.
    apply bind_Ok in Hsh as (tx & Htx & Hsh).
    apply bind_Ok in Hsh as (ty & Hty & [= <- <-]).
    apply take_indices_length in Htx, Hty. simpl. rewrite Eshuffle.
    destruct dataset as [| |d']; simpl in Hd; [discriminate | |];
      injection Hd as <-; rewrite ?Htx, Hty, Hperm; split; reflexivity.
  - injection Hsh as <- <-. rewrite Eshuffle. split; reflexivity.
Qed.

Lemma take_indices_seq_shift {A} (pre a : list A) :
  take_indices (pre ++ a) (seq (length pre) (length a)) = Ok a.
Proof using Type.
  revert pre. induction a as [|x a IH]; intros pre; simpl; [reflexivity |].
  rewrite list_lookup_middle by reflexivity.
  specialize (IH (pre ++ [x])). rewrite <- app_assoc in IH. simpl in IH.
  rewrite length_app in IH. simpl in IH. rewrite Nat.add_1_r in IH.
  rewrite IH. reflexivity.
Qed.

Lemma take_indices_permutation {A} (a : list A) (idx idx' : list nat) :
  idx ≡ₚ idx' →
  ∀ vs, take_indices a idx = Ok vs →
        ∃ vs', take_indices a idx' = Ok vs' ∧ vs ≡ₚ vs'.
Proof using Type.
  induction 1 as [|i idx idx' _ IH|i j idx|idx1 idx2 idx3 _ IH1 _ IH2];
    intros vs Hvs; simpl in *.
  - eauto.
  - destruct (a !! i) as [v|]; [| discriminate].
    apply bind_Ok in Hvs as (ws & Hws & [= <-]).
    destruct (IH ws Hws) as (ws' & Hws' & Hperm). rewrite Hws'. simpl.
    eexists. split; [reflexivity |]. constructor. exact Hperm.
  - destruct (a !! j) as [vj|]; [| discriminate].
    apply bind_Ok in Hvs as (ws & Hws & [= <-]).
    destruct (a !! i) as [vi|]; [| discriminate].
    apply bind_Ok in Hws as (us & Hus & [= <-]).
    rewrite Hus. simpl. eexists. split; [reflexivity |]. constructor.
  - destruct (IH1 vs Hvs) as (vs2 & H2 & Hp2).
    destruct (IH2 vs2 H2) as (vs3 & H3 & Hp3).
    exists vs3. split; [exact H3 | etransitivity; eassumption].
Qed.

(** With shuffling, when the name [dataset] is bound to an object of as many
    training images as the object itself holds, one pass yields
    [ceil (n / batch_size)] batches that together are the shuffled training
    set, a permutation of the training set. *)
Lemma batches_shuffled_cover (dataset : binding) (self d : Dataset)
    (batch_size : Z) (g : rng) (n : nat) :
  shuffle self = true →
  lookup_dataset dataset self = Ok d → length (train_x d) = n →
  (0 < batch_size)%Z →
  length (train_x self) = n → length (train_y self) = n →
  (∀ x, x ≠ [] → is_ok (scaler self x)) →
  ∃ self' yielded g',
    batches rng np_random_shuffle dataset self batch_size g = Ok (self', yielded, g')
    ∧ Z.of_nat (length yielded) = ceil_div (Z.of_nat n) batch_size
    ∧ concat (map snd yielded) = train_y self'
    ∧ train_x self' ≡ₚ train_x self ∧ train_y self' ≡ₚ train_y self
    ∧ ∀ k sx ys, yielded !! k = Some (sx, ys) →
        (0 < Z.of_nat (length ys) <= batch_size)%Z
        ∧ (k + 1 < length yielded → Z.of_nat (length ys) = batch_size).
Proof using shuffle_permutes.
  intros Hsh Hd Hdn Hbs Hx Hy Hscaler. unfold batches. rewrite Hsh, Hd. simpl.
  pose proof (shuffle_permutes (seq 0 (length (train_x d))) g) as Hperm.
  destruct (np_random_shuffle (seq 0 (length (train_x d))) g) as [idx g2].
  simpl in Hperm. rewrite Hdn in Hperm. symmetry in Hperm.
  pose proof (take_indices_seq_shift [] (train_x self)) as Htx.
  pose proof (take_indices_seq_shift [] (train_y self)) as Hty.
  simpl in Htx, Hty. rewrite Hx in Htx. rewrite Hy in Hty.
  destruct (take_indices_permutation _ _ _ Hperm _ Htx) as (tx & Etx & Hpx).
  destruct (take_indices_permutation _ _ _ Hperm _ Hty) as (ty & Ety & Hpy).
  rewrite Etx. simpl. rewrite Ety. simpl.
  destruct (batch_loop_cover (set_train self tx ty) batch_size n Hbs)
    as (yielded & xys & Hloop & _ & Hlen & _ & Hcy & Hsizes).
  - simpl. rewrite <- Hx. symmetry. apply Permutation_length, Hpx.
  - simpl. rewrite <- Hy. symmetry. apply Permutation_length, Hpy.
  - exact Hscaler.
  - rewrite Hloop. simpl. eexists _, _, _. split; [reflexivity |].
    split; [exact Hlen |]. split; [exact Hcy |].
    split; [symmetry; exact Hpx |]. split; [symmetry; exact Hpy |].
    intros k sx ys Hk. destruct (Hsizes k sx ys Hk) as (x & _ & _ & _ & H1 & H2).
    split; assumption.
Qed.

End PassFacts.

(** ** Counting the steps that are logged *)

Lemma filter_seqZ_succ (f : Z → bool) (n : Z) :
  (0 <= n)%Z →
  List.filter f (seqZ 1 (n + 1))
  = List.filter f (seqZ 1 n) ++ (if f (n + 1)%Z then [(n + 1)%Z] else []).
Proof.
  intros Hn. rewrite seqZ_app by lia. rewrite List.filter_app. f_equal.
  rewrite seqZ_cons by lia. rewrite seqZ_nil by lia. simpl.
  rewrite (Z.add_comm 1 n). reflexivity.
Qed.

Lemma div_step (n p : Z) :
  (0 <= n)%Z → (0 < p)%Z →
  ((n + 1) / p = n / p + (if (n + 1) mod p =? 0 then 1 else 0))%Z.
Proof.
  intros Hn Hp.
  pose proof (Z.div_mod n p ltac:(lia)) as Hn1.
  pose proof (Z.mod_pos_bound n p Hp) as Hr1.
  pose proof (Z.div_mod (n + 1) p ltac:(lia)) as Hn2.
  pose proof (Z.mod_pos_bound (n + 1) p Hp) as Hr2.
  destruct ((n + 1) mod p =? 0)%Z eqn:E.
  - apply Z.eqb_eq in E. nia.
  - apply Z.eqb_neq in E. nia.
Qed.

(** Among the step counts 1, ..., [n] there are [n / p] multiples of [p]. *)
Lemma count_multiples (p n : Z) :
  (0 < p)%Z → (0 <= n)%Z →
  Z.of_nat (length (List.filter (fun k => (k mod p =? 0)%Z) (seqZ 1 n))) = (n / p)%Z.
Proof.
  intros Hp Hn. rewrite <- (Z2Nat.id n Hn). clear Hn.
  induction (Z.to_nat n) as [|k IH].
  - rewrite seqZ_nil by lia. simpl. rewrite Z.div_0_l by lia. reflexivity.
  - rewrite Nat2Z.inj_succ, <- Z.add_1_r.
    rewrite filter_seqZ_succ by lia. rewrite length_app, Nat2Z.inj_add, IH.
    rewrite div_step by lia.
    destruct ((Z.of_nat k + 1) mod p =? 0)%Z; reflexivity.
Qed.

(** ** The training loop *)

Section TrainFacts.

Variable rng : Type.
Variable np_random_shuffle : list nat → rng → list nat * rng.
Variable np_random_uniform : Q → Q → nat * nat → rng → list (list Q) * rng.
Variable session : Type.
Variable lossval : Type.
Variable images : Type.
Variable global_variables_initializer : session.
Variable generator_inference : feed → session → images.
Variable z_size : Z.
Variable module_dataset : binding.

Variable net : GAN session lossval.
Variables epochs batch_size print_every show_every : Z.

Local Abbreviation state := (loop_state rng session lossval images).
Local Abbreviation body :=
  (train_batch rng np_random_uniform session lossval images generator_inference
     z_size net epochs batch_size print_every show_every).
Local Abbreviation epoch_body :=
  (train_epoch rng np_random_shuffle np_random_uniform session lossval images
     generator_inference z_size module_dataset net epochs batch_size
     print_every show_every).

(** The events after the two training operations of step [n]. *)
Local Abbreviation log_events e n fd fz s :=
  (if (n mod print_every =? 0)%Z
   then [EEval DLoss fd; EEval GLoss fz;
         EPrint (e + 1)%Z epochs (d_loss net fd s) (g_loss net fz s);
         EAppend (d_loss net fd s) (g_loss net fz s)]
   else []).
Local Abbreviation sample_events n fs :=
  (if (n mod show_every =? 0)%Z then [ESample (lossval := lossval) fs; EView] else []).

(** What one pass through the body of the batch loop does. *)
Lemma train_batch_spec (sample_z : list (list Q)) (e : Z) (st st' : state)
    (x : list (list npfloat)) (y : list Z) :
  body sample_z e st (x, y) = Ok st' →
  ∃ z g,
    np_random_uniform (-1) 1 (Z.to_nat batch_size, Z.to_nat z_size) (gen st) = (z, g)
    ∧ print_every ≠ 0%Z ∧ show_every ≠ 0%Z
    ∧ let n := (steps st + 1)%Z in
      let fd := {| input_real := Some x; input_z := Some z |} in
      let fz := {| input_real := None; input_z := Some z |} in
      let fs := {| input_real := None; input_z := Some sample_z |} in
      let s := g_opt net fd (d_opt net fd (sess st)) in
      steps st' = n ∧ sess st' = s ∧ gen st' = g
      ∧ losses st'
        = losses st ++ (if (n mod print_every =? 0)%Z
                        then [(d_loss net fd s, g_loss net fz s)] else [])
      ∧ trace st'
        = trace st
          ++ [EStep n; EUniform batch_size z_size z; ERun DOpt fd; ERun GOpt fd]
          ++ log_events e n fd fz s ++ sample_events n fs.
Proof.
  unfold train_batch. intros H.
  apply bind_Ok in H as ([z g] & Hz & H).
  unfold random_uniform in Hz.
  destruct ((batch_size <? 0) || (z_size <? 0))%Z; [discriminate |].
  injection Hz as Hz.
  apply bind_Ok in H as (r1 & Hr1 & H).
  unfold py_mod in Hr1. destruct (print_every =? 0)%Z eqn:Ep; [discriminate |].
  injection Hr1 as <-.
  exists z, g. split; [exact Hz |]. split; [lia |].
  destruct ((steps st + 1) mod print_every =? 0)%Z;
    (apply bind_Ok in H as (r2 & Hr2 & H);
     unfold py_mod in Hr2;
     destruct (show_every =? 0)%Z eqn:Eq; [discriminate |];
     injection Hr2 as <-; split; [lia |];
     destruct ((steps st + 1) mod show_every =? 0)%Z;
     injection H as <-; simpl; rewrite <- ?app_assoc, ?app_nil_r;
     repeat split; reflexivity).
Qed.

(** A property of the loop state that holds at the start of the run and
    that the batch loop's body keeps, whatever the noise source's state, holds
    at the end, before the checkpoint is written. *)
Lemma train_invariant (P : list (list Q) → state → Prop) (ds : Dataset) (g : rng)
    (st : state) (ds' : Dataset) :
  (∀ sample_z g', P sample_z {| sess := global_variables_initializer; steps := 0;
                                losses := []; samples := [];
                                trace := [EUniform 72 z_size sample_z];
                                gen := g' |}) →
  (∀ sample_z s g', P sample_z s → P sample_z (set_gen rng session lossval images s g')) →
  (∀ sample_z e s xy s', P sample_z s → body sample_z e s xy = Ok s' → P sample_z s') →
  train rng np_random_shuffle np_random_uniform session lossval images
    global_variables_initializer generator_inference z_size module_dataset
    net ds epochs batch_size print_every show_every g = Ok (st, ds') →
  ∃ sample_z st0,
    st = add_trace rng session lossval images st0 [ESave; EDump] ∧ P sample_z st0.
Proof.
  intros Hinit Hgen Hbody H. unfold train in H.
  apply bind_Ok in H as ([sample_z g1] & _ & H).
  apply bind_Ok in H as ([st0 ds0] & Hloop & [= <- <-]).
  exists sample_z, st0. split; [reflexivity |].
  apply (for_each_invariant (fun s : state * Dataset => P sample_z s.1))
    in Hloop; [exact Hloop | | apply Hinit].
  intros [s d] e [s' d'] HP Hep. simpl in *. unfold train_epoch in Hep.
  apply bind_Ok in Hep as ([[d1 yielded] g2] & _ & Hep).
  apply bind_Ok in Hep as (s1 & Hbatches & [= <- <-]).
  apply (for_each_invariant (P sample_z)) in Hbatches; [exact Hbatches | | apply Hgen, HP].
  intros s2 xy s3 HP2 Hb. apply (Hbody sample_z e s2 xy s3 HP2 Hb).
Qed.

Lemma quiet_tail (e n : Z) (fd fz fs : feed) (s : session) :
  Forall quiet_event (log_events e n fd fz s ++ sample_events n fs).
Proof.
  destruct (n mod print_every =? 0)%Z; destruct (n mod show_every =? 0)%Z;
    simpl; repeat constructor.
Qed.

(** One pass through the body appends one block to the trace. *)
Lemma train_batch_block (sample_z : list (list Q)) (e : Z) (s s' : state)
    (x : list (list npfloat)) (y : list Z) :
  body sample_z e s (x, y) = Ok s' →
  ∃ z g1 rest,
    np_random_uniform (-1) 1 (Z.to_nat batch_size, Z.to_nat z_size) (gen s) = (z, g1)
    ∧ trace s'
      = trace s
        ++ [EStep (steps s + 1); EUniform batch_size z_size z;
            ERun DOpt {| input_real := Some x; input_z := Some z |};
            ERun GOpt {| input_real := Some x; input_z := Some z |}] ++ rest
    ∧ Forall quiet_event rest
    ∧ steps s' = (steps s + 1)%Z
    ∧ sess s' = g_opt net {| input_real := Some x; input_z := Some z |}
                  (d_opt net {| input_real := Some x; input_z := Some z |} (sess s)).
Proof.
  intros H. apply train_batch_spec in H as (z & g1 & Hz & _ & _ & H).
  simpl in H. destruct H as (Hsteps & Hsess & _ & _ & Htrace).
  exists z, g1. eexists. split; [exact Hz |]. split; [exact Htrace |].
  split; [apply quiet_tail |]. split; assumption.
Qed.

Lemma train_blocks (ds : Dataset) (g : rng) (st : state) (ds' : Dataset) :
  train rng np_random_shuffle np_random_uniform session lossval images
    global_variables_initializer generator_inference z_size module_dataset
    net ds epochs batch_size print_every show_every g = Ok (st, ds') →
  ∃ sample_z blocks,
    trace st = EUniform 72 z_size sample_z :: concat blocks ++ [ESave; EDump]
    ∧ Z.of_nat (length blocks) = steps st
    ∧ ∀ i blk, blocks !! i = Some blk →
        iteration_block np_random_uniform z_size batch_size (Z.of_nat i + 1) blk.
Proof.
  intros H.
  apply (train_invariant (fun sample_z s =>
           ∃ blocks, trace s = EUniform 72 z_size sample_z :: concat blocks
             ∧ Z.of_nat (length blocks) = steps s
             ∧ ∀ i blk, blocks !! i = Some blk →
                 iteration_block np_random_uniform z_size batch_size
                   (Z.of_nat i + 1) blk)) in H.
  - destruct H as (sample_z & st0 & -> & blocks & Htr & Hlen & Hblk).
    exists sample_z, blocks. simpl. rewrite Htr. repeat split; assumption.
  - intros sample_z g'. exists []. simpl. repeat split. intros i blk Hi.
    destruct i; discriminate.
  - intros sample_z s g' HP. exact HP.
  - intros sample_z e s [x y] s' (blocks & Htr & Hlen & Hblk) Hb.
    apply train_batch_block in Hb as (z & g1 & rest & Hz & Htr' & Hq & Hsteps & _).
    eexists (blocks ++ [_]). split; [| split].
    + rewrite Htr', Htr, concat_app. simpl. rewrite app_nil_r. reflexivity.
    + rewrite length_app. simpl. lia.
    + intros i blk Hi. apply lookup_app_Some in Hi as [Hi | [Hge Hi]].
      * apply Hblk, Hi.
      * destruct (i - length blocks) as [|k] eqn:Ek; [| destruct k; discriminate].
        injection Hi as <-. replace (Z.of_nat i + 1)%Z with (steps s + 1)%Z by lia.
        exists x, z, (gen s), rest. rewrite Hz. repeat split. exact Hq.
Qed.

(** C7.  A run of [train] is, between the draw of the sample noise and the
    checkpoint, one block per pass through the batch loop: the pass draws a
    noise batch from the random generator (the real batch has no part in
    the draw), runs the discriminator's operation under the feed of the
    real batch and this noise batch, then the generator's operation under
    the same two values, and no other training operation.  The second part
    says the same of one pass on a given real batch [x]. *)
Theorem train_discriminator_then_generator (ds : Dataset) (g : rng) (st : state)
    (ds' : Dataset) :
  train rng np_random_shuffle np_random_uniform session lossval images
    global_variables_initializer generator_inference z_size module_dataset
    net ds epochs batch_size print_every show_every g = Ok (st, ds') →
  (∃ sample_z blocks,
     trace st = EUniform 72 z_size sample_z :: concat blocks ++ [ESave; EDump]
     ∧ Z.of_nat (length blocks) = steps st
     ∧ ∀ i blk, blocks !! i = Some blk →
         iteration_block np_random_uniform z_size batch_size (Z.of_nat i + 1) blk)
  ∧ ∀ sample_z e (s s' : state) x y,
      body sample_z e s (x, y) = Ok s' →
      ∃ z g1 rest,
        np_random_uniform (-1) 1 (Z.to_nat batch_size, Z.to_nat z_size) (gen s)
        = (z, g1)
        ∧ trace s'
          = trace s
            ++ [EStep (steps s + 1); EUniform batch_size z_size z;
                ERun DOpt {| input_real := Some x; input_z := Some z |};
                ERun GOpt {| input_real := Some x; input_z := Some z |}] ++ rest
        ∧ Forall quiet_event rest
        ∧ sess s' = g_opt net {| input_real := Some x; input_z := Some z |}
                      (d_opt net {| input_real := Some x; input_z := Some z |}
                         (sess s)).
Proof.
  intros H. split; [apply (train_blocks ds g st ds' H) |].
  intros sample_z e s s' x y Hb.
  apply train_batch_block in Hb as (z & g1 & rest & Hz & Htr & Hq & _ & Hs).
  exists z, g1, rest. repeat split; assumption.
Qed.

(** What the trace and the loss history record of the steps, and that the
    session is what the training operations alone made it. *)
Lemma train_log (ds : Dataset) (g : rng) (st : state) (ds' : Dataset) :
  train rng np_random_shuffle np_random_uniform session lossval images
    global_variables_initializer generator_inference z_size module_dataset
    net ds epochs batch_size print_every show_every g = Ok (st, ds') →
  (0 <= steps st)%Z
  ∧ logged_steps (trace st)
    = List.filter (fun n => (n mod print_every =? 0)%Z) (seqZ 1 (steps st))
  ∧ length (losses st) = length (logged_steps (trace st))
  ∧ sess st = replay net (trace st) global_variables_initializer.
Proof.
  intros H.
  apply (train_invariant (fun _ s =>
           (0 <= steps s)%Z
           ∧ fold_left log_step (trace s) (0%Z, [])
             = (steps s,
                List.filter (fun n => (n mod print_every =? 0)%Z) (seqZ 1 (steps s)))
           ∧ length (losses s)
             = length (List.filter (fun n => (n mod print_every =? 0)%Z)
                         (seqZ 1 (steps s)))
           ∧ sess s = replay net (trace s) global_variables_initializer)) in H.
  - destruct H as (_ & st0 & -> & Hpos & Hlog & Hlen & Hsess).
    unfold logged_steps, replay in *. simpl.
    rewrite !fold_left_app, Hlog, <- Hsess. simpl. repeat split; assumption.
  - intros sample_z g'. simpl. repeat split. lia.
  - intros _ s g' HP. exact HP.
  - intros sample_z e s [x y] s' (Hpos & Hlog & Hlen & Hsess) Hb.
    apply train_batch_spec in Hb as (z & g1 & _ & _ & _ & Hb). simpl in Hb.
    destruct Hb as (Hsteps & Hs & _ & Hlosses & Htrace).
    rewrite Hsteps, Hs, Hlosses, Htrace. unfold replay in *.
    rewrite !fold_left_app, Hlog, <- Hsess.
    rewrite filter_seqZ_succ by exact Hpos.
    split; [lia |].
    destruct ((steps s + 1) mod print_every =? 0)%Z;
      destruct ((steps s + 1) mod show_every =? 0)%Z;
      simpl; rewrite ?app_nil_r, ?length_app, ?Hlen; repeat split; reflexivity.
Qed.

(** Every epoch runs the same number of passes through the batch loop. *)
Lemma train_steps (ds : Dataset) (g : rng) (st : state) (ds' : Dataset) :
  (∀ l g, (np_random_shuffle l g).1 ≡ₚ l) → (0 < batch_size)%Z →
  train rng np_random_shuffle np_random_uniform session lossval images
    global_variables_initializer generator_inference z_size module_dataset
    net ds epochs batch_size print_every show_every g = Ok (st, ds') →
  steps st
  = (Z.of_nat (Z.to_nat epochs)
     * ceil_div (Z.of_nat (epoch_samples module_dataset ds)) batch_size)%Z.
Proof.
  intros Hperm Hbs H. unfold train in H.
  apply bind_Ok in H as ([sample_z g1] & _ & H).
  apply bind_Ok in H as ([st0 ds0] & Hloop & [= <- <-]). simpl.
  apply (for_each_count
           (fun s : state * Dataset =>
              epoch_samples module_dataset s.2 = epoch_samples module_dataset ds)
           (fun s => steps s.1)
           (ceil_div (Z.of_nat (epoch_samples module_dataset ds)) batch_size))
    in Hloop.
  - destruct Hloop as [_ Hsteps]. simpl in Hsteps.
    rewrite length_map, length_seq in Hsteps. lia.
  - intros [s d] e [s' d'] HP Hep. simpl in *. unfold train_epoch in Hep.
    apply bind_Ok in Hep as ([[d1 yielded] g2] & Hbt & Hep).
    apply bind_Ok in Hep as (s1 & Hbatches & [= <- <-]).
    destruct (batches_count rng np_random_shuffle Hperm module_dataset d
                batch_size (gen s) d1 yielded g2 Hbs Hbt) as [Hlen Hkeep].
    apply (for_each_count (fun _ => True) (fun s : state => steps s) 1) in Hbatches.
    + destruct Hbatches as [_ Hsteps]. simpl in Hsteps.
      split; [congruence |]. rewrite HP in Hlen. lia.
    + intros s2 [x y] s3 _ Hb.
      apply train_batch_spec in Hb as (z & g3 & _ & _ & _ & Hb). simpl in Hb.
      destruct Hb as (Hst & _). split; [exact I | exact Hst].
    + exact I.
  - reflexivity.
Qed.

(** C8.  With a positive logging interval, the run appends a loss record at
    exactly the steps whose count is a multiple of [print_every]; the
    session at the end is what the training operations of the trace alone
    give, so evaluating the losses updates nothing; and after [epochs]
    epochs of [B] passes each, the loss history holds [epochs * B /
    print_every] records, rounded down.  [B] is the number of batches of a
    pass of [batches] with a positive batch size. *)
Theorem train_loss_history (ds : Dataset) (g : rng) (st : state) (ds' : Dataset) :
  (∀ l g, (np_random_shuffle l g).1 ≡ₚ l) →
  (0 < print_every)%Z → (0 < batch_size)%Z → (0 <= epochs)%Z →
  train rng np_random_shuffle np_random_uniform session lossval images
    global_variables_initializer generator_inference z_size module_dataset
    net ds epochs batch_size print_every show_every g = Ok (st, ds') →
  let B := ceil_div (Z.of_nat (epoch_samples module_dataset ds)) batch_size in
  logged_steps (trace st)
  = List.filter (fun n => (n mod print_every =? 0)%Z) (seqZ 1 (steps st))
  ∧ length (losses st) = length (logged_steps (trace st))
  ∧ sess st = replay net (trace st) global_variables_initializer
  ∧ steps st = (epochs * B)%Z
  ∧ Z.of_nat (length (losses st)) = (epochs * B / print_every)%Z.
Proof.
  intros Hperm Hp Hbs He H B.
  destruct (train_log ds g st ds' H) as (Hpos & Hlog & Hlen & Hsess).
  pose proof (train_steps ds g st ds' Hperm Hbs H) as Hsteps.
  rewrite Z2Nat.id in Hsteps by exact He. fold B in Hsteps.
  split; [exact Hlog |]. split; [exact Hlen |]. split; [exact Hsess |].
  split; [exact Hsteps |].
  rewrite Hlen, Hlog, count_multiples by assumption. rewrite Hsteps. reflexivity.
Qed.

(** The body returns when the sizes are not negative and the two intervals
    are not zero. *)
Lemma train_batch_returns (sample_z : list (list Q)) (e : Z) (s : state)
    (xy : list (list npfloat) * list Z) :
  (0 <= batch_size)%Z → (0 <= z_size)%Z →
  print_every ≠ 0%Z → show_every ≠ 0%Z →
  ∃ s', body sample_z e s xy = Ok s'.
Proof.
  intros Hbs Hz Hp Hq. unfold train_batch, random_uniform, py_mod.
  destruct xy as [x y].
  destruct (batch_size <? 0)%Z eqn:E1; [lia |].
  destruct (z_size <? 0)%Z eqn:E2; [lia |].
  destruct (print_every =? 0)%Z eqn:E3; [lia |].
  destruct (show_every =? 0)%Z eqn:E4; [lia |].
  simpl. destruct (np_random_uniform _ _ _ _) as [z g1]. simpl.
  destruct ((steps s + 1) mod print_every =? 0)%Z; simpl;
    destruct ((steps s + 1) mod show_every =? 0)%Z; eauto.
Qed.

(** Without shuffling, on [n] images and [n] labels, with a scaler that
    accepts every batch that is not empty: the run returns, and leaves the
    [Dataset] object as it was. *)
Lemma train_returns (ds : Dataset) (g : rng) (n : nat) :
  shuffle ds = false →
  (0 < batch_size)%Z → (0 <= z_size)%Z →
  print_every ≠ 0%Z → show_every ≠ 0%Z →
  length (train_x ds) = n → length (train_y ds) = n →
  (∀ x, x ≠ [] → is_ok (scaler ds x)) →
  ∃ st,
    train rng np_random_shuffle np_random_uniform session lossval images
      global_variables_initializer generator_inference z_size module_dataset
      net ds epochs batch_size print_every show_every g = Ok (st, ds).
Proof.
  intros Hsh Hbs Hz Hp Hq Hx Hy Hscaler. unfold train, random_uniform.
  destruct (z_size <? 0)%Z eqn:E; [lia |]. simpl.
  destruct (np_random_uniform _ _ _ _) as [sample_z g1]. simpl.
  match goal with
  | |- context [for_each ?b ?items ?s0] =>
      destruct (for_each_total (fun s : state * Dataset => s.2 = ds) b items s0)
        as ([st d] & Hloop & Hd)
  end.
  - intros [s d] e Hd. simpl in Hd. subst d. unfold train_epoch.
    destruct (batches_unshuffled_cover rng np_random_shuffle module_dataset ds
                batch_size (gen s) n Hsh Hbs Hx Hy Hscaler)
      as (yielded & xys & Hb & _).
    rewrite Hb. simpl.
    match goal with
    | |- context [for_each ?b ?items ?s0] =>
        destruct (for_each_total (fun _ : state => True) b items s0)
          as (s1 & Hinner & _)
    end.
    + intros s2 xy _. destruct (train_batch_returns sample_z e s2 xy) as [s3 Hs3];
        try assumption; try lia. eauto.
    + exact I.
    + rewrite Hinner. simpl. eauto.
  - reflexivity.
  - simpl in Hd. subst d. rewrite Hloop. simpl. eauto.
Qed.

End TrainFacts.

(** ** A run of two epochs over four samples *)

Lemma reverse_shuffle_permutes (l : list nat) (g : unit) :
  (reverse_shuffle l g).1 ≡ₚ l.
Proof. simpl. symmetry. apply Permutation_rev. Qed.

Example toy_train_run :
  ∃ st, toy_train (four_samples false) 2 3 2 3 = Ok (st, four_samples false)
      ∧ steps st = 4%Z ∧ sess st = 44%Z
      ∧ losses st = [(22, -22); (44, -44)]%Z
      ∧ logged_steps (trace st) = [2; 4]%Z.
Proof. eexists. repeat split; vm_compute; reflexivity. Qed.

Lemma train_discriminator_then_generator_witness :
  ∃ st ds' sample_z blocks,
    toy_train (four_samples false) 2 3 2 3 = Ok (st, ds')
    ∧ trace st = EUniform 72 2 sample_z :: concat blocks ++ [ESave; EDump]
    ∧ Z.of_nat (length blocks) = steps st
    ∧ ∀ i blk, blocks !! i = Some blk →
        iteration_block constant_uniform 2 3 (Z.of_nat i + 1) blk.
Proof.
  assert (Hrun : ∃ r, toy_train (four_samples false) 2 3 2 3 = Ok r)
    by (eexists; vm_compute; reflexivity).
  destruct Hrun as [[st ds'] Hrun].
  destruct (train_discriminator_then_generator unit reverse_shuffle
              constant_uniform Z Z unit 0%Z (fun _ _ => tt) 2%Z Self toy_net
              2 3 2 3 (four_samples false) tt st ds' Hrun)
    as [(sample_z & blocks & Hblocks) _].
  exists st, ds', sample_z, blocks. split; [exact Hrun | exact Hblocks].
Defined.

Lemma train_loss_history_witness :
  ∃ st ds',
    toy_train (four_samples false) 2 3 2 3 = Ok (st, ds')
    ∧ logged_steps (trace st)
      = List.filter (fun n => (n mod 2 =? 0)%Z) (seqZ 1 (steps st))
    ∧ length (losses st) = length (logged_steps (trace st))
    ∧ sess st = replay toy_net (trace st) 0%Z
    ∧ steps st = (2 * ceil_div 4 3)%Z
    ∧ Z.of_nat (length (losses st)) = (2 * ceil_div 4 3 / 2)%Z.
Proof.
  assert (Hrun : ∃ r, toy_train (four_samples false) 2 3 2 3 = Ok r)
    by (eexists; vm_compute; reflexivity).
  destruct Hrun as [[st ds'] Hrun].
  exists st, ds'. split; [exact Hrun |].
  apply (train_loss_history unit reverse_shuffle constant_uniform Z Z unit 0%Z
           (fun _ _ => tt) 2%Z Self toy_net 2 3 2 3 (four_samples false) tt st ds'
           reverse_shuffle_permutes); [lia | lia | lia | exact Hrun].
Defined.

(** * Further properties of the notebook's code *)

(** ** [scale]: feature ranges, end points, empty arrays *)

Section ScaleMore.
Local Open Scope Q_scope.








(** X3.  [scale] raises [ValueError] exactly on an array without elements
    (no image, or images without pixels); on any other array it returns an
    array of the same shape, whatever the values and the feature range. *)
Theorem scale_raises_iff_empty (x : list image) (fr : Q * Q) :
  (scale x fr = Raise ValueError ↔ concat x = [])
  ∧ (concat x ≠ [] → ∃ y, scale x fr = Ok y ∧ map length y = map length x).
Proof.
  assert (Hok : concat x ≠ [] →
                ∃ y, scale x fr = Ok y ∧ map length y = map length x).
  { intros Hne. destruct (array_min_Ok x Hne) as [m Hm].
    unfold scale. rewrite Hm. simpl. destruct fr as [lo hi].
    eexists. split; [reflexivity |].
    rewrite !map_map. apply map_ext. intros img. rewrite !length_map. reflexivity. }
  split; [| exact Hok]. split.
  - intros H. destruct (list_eq_nil_dec (concat x)) as [E | Hne]; [exact E |].
    destruct (Hok Hne) as (y & Hy & _). congruence.
  - intros E. unfold scale. rewrite (array_min_Raise x E). reflexivity.
Qed.

End ScaleMore.

(** ** [Dataset.__init__]: the size of the two parts *)

Lemma py_int_floor (q : Q) : (0 <= q)%Q → py_int q = Qfloor q.
Proof.
  destruct q as [a b]. unfold Qle, py_int, Qfloor. simpl. intros H.
  apply Z.quot_div_nonneg; lia.
Qed.

Lemma py_int_opp (q : Q) : py_int (- q) = (- py_int q)%Z.
Proof.
  destruct q as [a b]. unfold py_int. simpl. apply Z.quot_opp_l. lia.
Qed.

Lemma inject_nat_nonneg (n : nat) : (0 <= inject_Z (Z.of_nat n))%Q.
Proof. unfold Qle. simpl. lia. Qed.

Lemma py_int_lower (q : Q) (n : nat) :
  (inject_Z (Z.of_nat n) <= q)%Q → (Z.of_nat n <= py_int q)%Z.
Proof.
  intros H. pose proof (inject_nat_nonneg n).
  rewrite py_int_floor by lra.
  rewrite <- (Qfloor_Z (Z.of_nat n)). apply Qfloor_resp_le, H.
Qed.


Lemma slice_bound_above (n : nat) (k : Z) :
  (Z.of_nat n <= k)%Z → slice_bound n k = n.
Proof. intros H. unfold slice_bound. destruct (k <? 0)%Z eqn:E; lia. Qed.

Lemma slice_bound_below (n : nat) (k : Z) :
  (k <= - Z.of_nat n)%Z → slice_bound n k = 0.
Proof. intros H. unfold slice_bound. destruct (k <? 0)%Z eqn:E; lia. Qed.

(** The parts in terms of the bound of the split. *)
Lemma Dataset_init_parts (train test : mat) (val_frac : Q) (shuffle : bool)
    (scale_func : option scaler_t) (n : nat) :
  length (mat_X test) = n → length (mat_y test) = n →
  let d := Dataset_init train test val_frac shuffle scale_func in
  let k := slice_bound n
             (py_int (inject_Z (Z.of_nat n) * (1 - val_frac))%Q) in
  test_x d = take k (mat_X test) ∧ valid_x d = drop k (mat_X test)
  ∧ test_y d = take k (mat_y test) ∧ valid_y d = drop k (mat_y test).
Proof.
  intros HX Hy. unfold Dataset_init, rollaxis, slice_to, slice_from. simpl.
  rewrite HX, Hy. repeat split.
Qed.



(** X5.  Outside of that range the split index leaves the array or counts
    from its end: a fraction of zero or less puts every sample in the test
    part, a fraction of two or more puts every sample in the validation
    part. *)
Theorem Dataset_init_fraction_out_of_range (train test : mat) (val_frac : Q)
    (shuffle : bool) (scale_func : option scaler_t) (n : nat) :
  length (mat_X test) = n → length (mat_y test) = n →
  let d := Dataset_init train test val_frac shuffle scale_func in
  ((val_frac <= 0)%Q →
   test_x d = mat_X test ∧ test_y d = mat_y test
   ∧ valid_x d = [] ∧ valid_y d = [])
  ∧ ((2 <= val_frac)%Q →
     test_x d = [] ∧ test_y d = []
     ∧ valid_x d = mat_X test ∧ valid_y d = mat_y test).
Proof.
  intros HX Hy d.
  pose proof (inject_nat_nonneg n) as Hn.
  destruct (Dataset_init_parts train test val_frac shuffle scale_func n HX Hy)
    as (Etx & Evx & Ety & Evy).
  fold d in Etx, Evx, Ety, Evy.
  set (q := (inject_Z (Z.of_nat n) * (1 - val_frac))%Q) in *.
  split; intros Hf.
  - assert (Hq : (inject_Z (Z.of_nat n) <= q)%Q) by (subst q; nra).
    apply py_int_lower in Hq.
    rewrite slice_bound_above in Etx, Evx, Ety, Evy by exact Hq.
    rewrite Etx, Evx, Ety, Evy.
    rewrite !take_ge, !drop_ge by lia. repeat split.
  - assert (Hq : (inject_Z (Z.of_nat n) <= - q)%Q) by (subst q; nra).
    apply py_int_lower in Hq. rewrite py_int_opp in Hq.
    rewrite slice_bound_below in Etx, Evx, Ety, Evy by lia.
    rewrite Etx, Evx, Ety, Evy. repeat split.
Qed.

Lemma Dataset_init_fraction_out_of_range_witness :
  let test := {| mat_X := [[1%Q]; [2%Q]; [3%Q]]; mat_y := [7; 8; 9]%Z |} in
  let d := Dataset_init {| mat_X := []; mat_y := [] |} test (5 # 2) false None in
  ((5 # 2 <= 0)%Q →
   test_x d = mat_X test ∧ test_y d = mat_y test
   ∧ valid_x d = [] ∧ valid_y d = [])
  ∧ ((2 <= 5 # 2)%Q →
     test_x d = [] ∧ test_y d = []
     ∧ valid_x d = mat_X test ∧ valid_y d = mat_y test).
Proof.
  intros test.
  apply (Dataset_init_fraction_out_of_range {| mat_X := []; mat_y := [] |} test
           (5 # 2) false None 3); reflexivity.
Defined.

(** ** [Dataset.batches]: batch sizes that are not positive, foreign
       objects, and what shuffling keeps *)

Lemma take_indices_out_of_range {A} (a : list A) (idx : list nat) (i : nat) :
  i ∈ idx → length a ≤ i → take_indices a idx = Raise IndexError.
Proof.
  intros Hin Hi. induction idx as [|j idx IH]; [inversion Hin |].
  simpl. destruct (a !! j) as [v|] eqn:Hj; [| reflexivity].
  apply elem_of_cons in Hin as [-> | Hin].
  - apply lookup_lt_Some in Hj. lia.
  - rewrite (IH Hin). reflexivity.
Qed.

Lemma take_indices_zip {A B} (a : list A) (b : list B) (idx : list nat)
    (va : list A) (vb : list B) :
  take_indices a idx = Ok va → take_indices b idx = Ok vb →
  take_indices (zip a b) idx = Ok (zip va vb).
Proof.
  revert va vb. induction idx as [|i idx IH]; intros va vb; simpl.
  - intros [= <-] [= <-]. reflexivity.
  - destruct (a !! i) as [x|] eqn:Ha; [| discriminate].
    destruct (b !! i) as [y|] eqn:Hb; [| discriminate].
    intros H1 H2.
    apply bind_Ok in H1 as (wa & Hwa & [= <-]).
    apply bind_Ok in H2 as (wb & Hwb & [= <-]).
    rewrite lookup_zip_with, Ha, Hb. simpl.
    rewrite (IH wa wb Hwa Hwb). reflexivity.
Qed.

Lemma scale_returns (x : list image) (fr : Q * Q) :
  concat x ≠ [] → is_ok (scale x fr).
Proof.
  intros Hne. destruct (array_min_Ok x Hne) as [m Hm].
  unfold scale. rewrite Hm. simpl. destruct fr as [lo hi]. eexists. reflexivity.
Qed.

(** The default scaler accepts every batch of images that have a pixel. *)
Lemma default_scaler_accepts (images : list image) (fr : Q * Q) (x : list image) :
  Forall (fun img => img ≠ []) images → x ≠ [] → x ⊆ images → is_ok (scale x fr).
Proof.
  intros Himg Hx Hsub. apply scale_returns.
  destruct x as [|img x]; [congruence |]. simpl.
  rewrite Forall_forall in Himg.
  assert (Hin : img ∈ images) by (apply Hsub; left).
  specialize (Himg img Hin). destruct img; [congruence | discriminate].
Qed.

(** The loop over a training set of [n] images and [n] labels, for a scaler
    that accepts the batches of training images that are not empty. *)
Lemma batch_loop_cover_within (self : Dataset) (batch_size : Z) (n : nat) :
  (0 < batch_size)%Z →
  length (train_x self) = n → length (train_y self) = n →
  (∀ x, x ≠ [] → x ⊆ train_x self → is_ok (scaler self x)) →
  ∃ yielded,
    batch_loop self batch_size = Ok yielded
    ∧ Z.of_nat (length yielded) = ceil_div (Z.of_nat n) batch_size
    ∧ concat (map snd yielded) = train_y self
    ∧ ∀ k sx ys, yielded !! k = Some (sx, ys) →
        ys = take (Z.to_nat batch_size) (drop (k * Z.to_nat batch_size) (train_y self))
        ∧ scaler self (take (Z.to_nat batch_size)
                         (drop (k * Z.to_nat batch_size) (train_x self))) = Ok sx
        ∧ (0 < Z.of_nat (length ys) <= batch_size)%Z
        ∧ (k + 1 < length yielded → Z.of_nat (length ys) = batch_size).
Proof.
  intros Hbs Hx Hy Hscaler.
  destruct (batch_slices_cover self batch_size n Hbs Hx Hy)
    as (xys & Hxys & Hlen & _ & Hcy & Hsizes).
  pose proof Hxys as Hform.
  rewrite batch_slices_positive in Hform by exact Hbs. injection Hform as Hform.
  assert (Hslice : ∀ k x y, xys !! k = Some (x, y) →
            x = take (Z.to_nat batch_size) (drop (k * Z.to_nat batch_size) (train_x self))
            ∧ y = take (Z.to_nat batch_size) (drop (k * Z.to_nat batch_size) (train_y self))).
  { intros k x y Hk. rewrite <- Hform, lookup_map in Hk.
    destruct (seq 0 _ !! k) as [k'|] eqn:Hseq; [| discriminate].
    apply lookup_seq in Hseq as [-> _]. simpl in Hk. injection Hk as <- <-.
    split; reflexivity. }
  assert (Hall : Forall (fun a : list image * list Z =>
                   is_ok (let '(x, y) := a in sx ← scaler self x; Ok (sx, y))) xys).
  { apply Forall_lookup. intros k [x y] Hk.
    destruct (Hsizes k x y Hk) as (_ & Hpos & _).
    destruct (Hslice k x y Hk) as [Ex _].
    destruct (Hscaler x) as [sx Hsx].
    - intros ->. simpl in Hpos. lia.
    - rewrite Ex. intros img Himg.
      apply subseteq_take in Himg. apply subseteq_drop in Himg. exact Himg.
    - exists (sx, y). rewrite Hsx. reflexivity. }
  destruct (collect_total _ xys Hall) as [yielded Hyl].
  pose proof (collect_length _ _ _ Hyl) as Hlen'.
  assert (Hrow : ∀ k sx ys, yielded !! k = Some (sx, ys) →
                 ∃ x, xys !! k = Some (x, ys) ∧ scaler self x = Ok sx).
  { intros k sx ys Hk.
    destruct (collect_lookup _ _ _ Hyl k (sx, ys) Hk) as ([x y] & Hxy & Hs).
    apply bind_Ok in Hs as (sx' & Hsx & [= -> ->]). eauto. }
  exists yielded. split; [| split; [| split]].
  - unfold batch_loop, py_floordiv.
    destruct (batch_size =? 0)%Z eqn:E0; [lia |]. simpl.
    rewrite Hxys. simpl. exact Hyl.
  - rewrite Hlen'. exact Hlen.
  - rewrite <- Hcy. f_equal. apply list_eq. intros k.
    rewrite !lookup_map.
    destruct (yielded !! k) as [[sx ys]|] eqn:Hk.
    + destruct (Hrow k sx ys Hk) as (x & Hxy & _). rewrite Hxy. reflexivity.
    + apply lookup_ge_None in Hk. rewrite Hlen' in Hk.
      apply lookup_ge_None in Hk. rewrite Hk. reflexivity.
  - intros k sx ys Hk. destruct (Hrow k sx ys Hk) as (x & Hxy & Hsx).
    destruct (Hsizes k x ys Hxy) as (Hl & Hpos & Hfull).
    destruct (Hslice k x ys Hxy) as [Ex Ey].
    rewrite Hlen', <- Hl. rewrite <- Ex, <- Ey.
    repeat split; try assumption; lia.
Qed.

Section BatchMore.

Variable rng : Type.
Variable np_random_shuffle : list nat → rng → list nat * rng.

(** X6.  A batch size of zero never yields: the pass ends in an exception,
    and without shuffling that exception is the [ZeroDivisionError] of
    [len(self.train_y)//batch_size]. *)
Theorem batches_zero_batch_size (dataset : binding) (self : Dataset) (g : rng) :
  (shuffle self = false →
   batches rng np_random_shuffle dataset self 0 g = Raise ZeroDivisionError)
  ∧ ∀ r, batches rng np_random_shuffle dataset self 0 g ≠ Ok r.
Proof.
  split.
  - intros Hsh. rewrite batches_unshuffled by exact Hsh. reflexivity.
  - intros [[self' yielded] g'] H. unfold batches in H.
    apply bind_Ok in H as ([self1 g1] & _ & H).
    apply bind_Ok in H as (ylds & Hloop & _). discriminate.
Qed.

(** X7.  A negative batch size yields no batch and raises nothing: without
    shuffling the pass returns at once and leaves the object as it is, and
    with shuffling a pass that returns has yielded nothing. *)
Theorem batches_negative_batch_size (dataset : binding) (self : Dataset)
    (batch_size : Z) (g : rng) :
  (batch_size < 0)%Z →
  (shuffle self = false →
   batches rng np_random_shuffle dataset self batch_size g = Ok (self, [], g))
  ∧ ∀ self' yielded g',
      batches rng np_random_shuffle dataset self batch_size g
      = Ok (self', yielded, g') → yielded = [].
Proof.
  intros Hbs.
  assert (Hloop : ∀ s, batch_loop s batch_size = Ok []).
  { intros s. unfold batch_loop, py_floordiv, batch_slices.
    destruct (batch_size =? 0)%Z eqn:E; [lia |]. simpl.
    rewrite py_range_negative by lia. reflexivity. }
  split.
  - intros Hsh. rewrite batches_unshuffled by exact Hsh. rewrite Hloop. reflexivity.
  - intros self' yielded g' H. unfold batches in H.
    apply bind_Ok in H as ([self1 g1] & _ & H).
    rewrite Hloop in H. simpl in H. congruence.
Qed.

(** X8.  With shuffling, when the name [dataset] is bound to an object that
    holds more training images than the object itself, the pass raises
    [IndexError]: the index array reaches beyond the object's images. *)
Theorem batches_larger_foreign_dataset (dataset : binding) (self d : Dataset)
    (batch_size : Z) (g : rng) :
  (∀ l g, (np_random_shuffle l g).1 ≡ₚ l) →
  shuffle self = true →
  lookup_dataset dataset self = Ok d →
  length (train_x self) < length (train_x d) →
  batches rng np_random_shuffle dataset self batch_size g = Raise IndexError.
Proof.
  intros Hperm Hsh Hd Hlt. unfold batches. rewrite Hsh, Hd. simpl.
  specialize (Hperm (seq 0 (length (train_x d))) g).
  destruct (np_random_shuffle (seq 0 (length (train_x d))) g) as [idx g2].
  simpl in Hperm.
  rewrite (take_indices_out_of_range (train_x self) idx (length (train_x self)));
    [reflexivity | | lia].
  rewrite Hperm. apply elem_of_seq. lia.
Qed.

(** X9.  With shuffling, when the name [dataset] is bound to an object of as
    many training images as the object holds (the object itself, say), a
    pass that returns leaves the object with the same pairs of image and
    label, in another order, and with the same number of them. *)
Theorem batches_shuffle_keeps_pairs (dataset : binding) (self d : Dataset)
    (batch_size : Z) (g : rng) (n : nat) (self' : Dataset)
    (yielded : list (list (list npfloat) * list Z)) (g' : rng) :
  (∀ l g, (np_random_shuffle l g).1 ≡ₚ l) →
  shuffle self = true →
  lookup_dataset dataset self = Ok d → length (train_x d) = n →
  length (train_x self) = n → length (train_y self) = n →
  batches rng np_random_shuffle dataset self batch_size g = Ok (self', yielded, g') →
  zip (train_x self') (train_y self') ≡ₚ zip (train_x self) (train_y self)
  ∧ length (train_x self') = n ∧ length (train_y self') = n
  ∧ shuffle self' = true ∧ scaler self' = scaler self.
Proof.
  intros Hperm Hsh Hd Hdn Hx Hy H. unfold batches in H.
  rewrite Hsh, Hd in H. simpl in H.
  specialize (Hperm (seq 0 (length (train_x d))) g).
  destruct (np_random_shuffle (seq 0 (length (train_x d))) g) as [idx g2].
  simpl in Hperm. rewrite Hdn in Hperm.
  apply bind_Ok in H as ([self1 g1] & Hsh1 & H).
  apply bind_Ok in Hsh1 as (tx & Htx & Hsh1).
  apply bind_Ok in Hsh1 as (ty & Hty & [= <- <-]).
  apply bind_Ok in H as (ylds & _ & [= <- <- <-]). simpl.
  pose proof (take_indices_zip _ _ _ _ _ Htx Hty) as Hzip.
  pose proof (take_indices_seq_shift [] (zip (train_x self) (train_y self))) as Hall.
  simpl in Hall. rewrite length_zip, Hx, Hy, Nat.min_id in Hall.
  symmetry in Hperm.
  destruct (take_indices_permutation _ _ _ Hperm _ Hall) as (vs & Hvs & Hp).
  rewrite Hzip in Hvs. injection Hvs as <-.
  split; [symmetry; exact Hp |].
  apply take_indices_length in Htx, Hty.
  apply Permutation_length in Hperm. rewrite length_seq in Hperm.
  repeat split; try assumption; lia.
Qed.

(** X10.  Without shuffling, on [n] images and [n] labels and with a scaler
    that accepts every batch of training images that is not empty, a pass
    with a positive batch size leaves the object and the random generator as
    they are, whatever the name [dataset] is bound to, and yields
    [ceil (n / batch_size)] batches: the label batches are consecutive
    slices that together are the training labels, each image batch is the
    scaled slice of the images at the same place, and only the last batch
    may hold fewer than [batch_size] samples. *)
Theorem batches_in_order (dataset : binding) (self : Dataset)
    (batch_size : Z) (g : rng) (n : nat) :
  shuffle self = false → (0 < batch_size)%Z →
  length (train_x self) = n → length (train_y self) = n →
  (∀ x, x ≠ [] → x ⊆ train_x self → is_ok (scaler self x)) →
  ∃ yielded,
    batches rng np_random_shuffle dataset self batch_size g = Ok (self, yielded, g)
    ∧ Z.of_nat (length yielded) = ceil_div (Z.of_nat n) batch_size
    ∧ concat (map snd yielded) = train_y self
    ∧ ∀ k sx ys, yielded !! k = Some (sx, ys) →
        ys = take (Z.to_nat batch_size) (drop (k * Z.to_nat batch_size) (train_y self))
        ∧ scaler self (take (Z.to_nat batch_size)
                         (drop (k * Z.to_nat batch_size) (train_x self))) = Ok sx
        ∧ (0 < Z.of_nat (length ys) <= batch_size)%Z
        ∧ (k + 1 < length yielded → Z.of_nat (length ys) = batch_size).
Proof.
  intros Hsh Hbs Hx Hy Hscaler.
  destruct (batch_loop_cover_within self batch_size n Hbs Hx Hy Hscaler)
    as (yielded & Hloop & Hrest).
  exists yielded. split; [| exact Hrest].
  rewrite batches_unshuffled by exact Hsh. rewrite Hloop. reflexivity.
Qed.

End BatchMore.

Lemma batches_negative_batch_size_witness :
  (shuffle (four_samples false) = false →
   batches unit reverse_shuffle Self (four_samples false) (-2) tt
   = Ok (four_samples false, [], tt))
  ∧ ∀ self' yielded g',
      batches unit reverse_shuffle Self (four_samples false) (-2) tt
      = Ok (self', yielded, g') → yielded = [].
Proof.
  apply (batches_negative_batch_size unit reverse_shuffle Self
           (four_samples false) (-2) tt). lia.
Defined.

Lemma batches_larger_foreign_dataset_witness :
  batches unit reverse_shuffle (Other (four_samples false))
    (training_set [[10%Q]; [20%Q]] [5; 6]%Z true) 2 tt = Raise IndexError.
Proof.
  apply (batches_larger_foreign_dataset unit reverse_shuffle
           (Other (four_samples false))
           (training_set [[10%Q]; [20%Q]] [5; 6]%Z true) (four_samples false) 2 tt).
  - intros l g. simpl. symmetry. apply Permutation_rev.
  - reflexivity.
  - reflexivity.
  - simpl. lia.
Defined.

Lemma batches_shuffle_keeps_pairs_witness :
  ∃ self' yielded g',
    batches unit reverse_shuffle Self (four_samples true) 3 tt
    = Ok (self', yielded, g')
    ∧ zip (train_x self') (train_y self')
      ≡ₚ zip (train_x (four_samples true)) (train_y (four_samples true))
    ∧ length (train_x self') = 4 ∧ length (train_y self') = 4
    ∧ shuffle self' = true ∧ scaler self' = scaler (four_samples true).
Proof.
  assert (Hrun : ∃ r, batches unit reverse_shuffle Self (four_samples true) 3 tt
                      = Ok r) by (eexists; vm_compute; reflexivity).
  destruct Hrun as [[[self' yielded] g'] Hrun].
  exists self', yielded, g'. split; [exact Hrun |].
  apply (batches_shuffle_keeps_pairs unit reverse_shuffle Self (four_samples true)
           (four_samples true) 3 tt 4 self' yielded g');
    try reflexivity; [| exact Hrun].
  intros l g. simpl. symmetry. apply Permutation_rev.
Defined.

Lemma batches_in_order_witness :
  ∃ yielded,
    batches unit reverse_shuffle Unbound (four_samples false) 3 tt
    = Ok (four_samples false, yielded, tt)
    ∧ Z.of_nat (length yielded) = ceil_div (Z.of_nat 4) 3
    ∧ concat (map snd yielded) = train_y (four_samples false)
    ∧ ∀ k sx ys, yielded !! k = Some (sx, ys) →
        ys = take (Z.to_nat 3) (drop (k * Z.to_nat 3) (train_y (four_samples false)))
        ∧ scaler (four_samples false)
            (take (Z.to_nat 3) (drop (k * Z.to_nat 3) (train_x (four_samples false))))
          = Ok sx
        ∧ (0 < Z.of_nat (length ys) <= 3)%Z
        ∧ (k + 1 < length yielded → Z.of_nat (length ys) = 3%Z).
Proof.
  apply (batches_in_order unit reverse_shuffle Unbound (four_samples false) 3 tt 4);
    try reflexivity.
  intros x Hx Hsub.
  apply (default_scaler_accepts (train_x (four_samples false))); try assumption.
  simpl. repeat constructor; discriminate.
Defined.

(** ** [model_loss]: what each loss depends on, shapes, and values *)

Section LossMore.
Local Open Scope R_scope.





Lemma reduce_mean_const (c : R) (t : list R) :
  t ≠ [] → tf_reduce_mean (map (fun _ => c) t) = c.
Proof.
  intros Hne. unfold tf_reduce_mean. rewrite length_map.
  assert (Hsum : tf_reduce_sum (map (fun _ => c) t) = INR (length t) * c).
  { clear Hne. induction t as [|v t IH]; [simpl; lra |].
    change (tf_reduce_sum (map (fun _ => c) (v :: t)))
      with (c + tf_reduce_sum (map (fun _ => c) t)).
    rewrite IH. change (length (v :: t)) with (S (length t)).
    rewrite S_INR. lra. }
  rewrite Hsum. field. apply not_0_INR.
  destruct t; [congruence | discriminate].
Qed.

Lemma logit_cross_entropy_zero (z : R) : logit_cross_entropy 0 z = ln 2.
Proof.
  unfold logit_cross_entropy. rewrite Rmax_left by lra.
  rewrite Rabs_R0, Ropp_0, exp_0. replace (1 + 1) with 2 by lra. lra.
Qed.

Variable tensor : Type.
Variable ztensor : Type.
Variable generator : ztensor → Z → bool → R → bool → tensor.
Variable discriminator : tensor → bool → R → list R * list R.

(** X11.  The generator's loss does not depend on the real batch: two calls
    of [model_loss] on the same noise that both return give the same
    [g_loss], whatever the two real batches are. *)
Theorem model_loss_g_ignores_real (input_real input_real' : tensor)
    (input_z : ztensor) (output_dim : Z) (alpha : R) (d g d' g' : R) :
  model_loss tensor ztensor generator discriminator input_real input_z
    output_dim alpha = Ok (d, g) →
  model_loss tensor ztensor generator discriminator input_real' input_z
    output_dim alpha = Ok (d', g') →
  g = g'.
Proof.
  unfold model_loss. intros H H'.
  destruct (discriminator input_real false alpha) as [pr lr].
  destruct (discriminator input_real' false alpha) as [pr' lr'].
  destruct (discriminator _ true alpha) as [pf lf].
  apply bind_Ok in H as (c1 & _ & H). apply bind_Ok in H as (c2 & _ & H).
  apply bind_Ok in H as (c3 & Hc3 & [= _ <-]).
  apply bind_Ok in H' as (c1' & _ & H'). apply bind_Ok in H' as (c2' & _ & H').
  apply bind_Ok in H' as (c3' & Hc3' & [= _ <-]).
  congruence.
Qed.

(** X12.  [model_loss] raises [ValueError] when the discriminator returns
    probabilities and logits of different shapes, on the real batch or on
    the generated one. *)
Theorem model_loss_shape_mismatch (input_real : tensor) (input_z : ztensor)
    (output_dim : Z) (alpha : R) (pr lr pf lf : list R) :
  discriminator input_real false alpha = (pr, lr) →
  discriminator (generator input_z output_dim false alpha true) true alpha
  = (pf, lf) →
  length pr ≠ length lr ∨ length pf ≠ length lf →
  model_loss tensor ztensor generator discriminator input_real input_z
    output_dim alpha = Raise ValueError.
Proof.
  intros Hr Hf Hne. unfold model_loss. rewrite Hr, Hf.
  unfold tf_nn_sigmoid_cross_entropy_with_logits, tf_ones_like, tf_zeros_like.
  rewrite !length_map.
  destruct (length lr =? length pr)%nat eqn:E1; [| reflexivity].
  apply Nat.eqb_eq in E1. simpl.
  destruct (length lf =? length pf)%nat eqn:E2; [| reflexivity].
  apply Nat.eqb_eq in E2. destruct Hne; congruence.
Qed.

(** X13.  When the discriminator's logits are all zero (it gives every
    image the probability one half), on batches that are not empty,
    [d_loss] is [2 ln 2] and [g_loss] is [ln 2]. *)
Theorem model_loss_undecided (input_real : tensor) (input_z : ztensor)
    (output_dim : Z) (alpha : R) (pr lr pf lf : list R) :
  discriminator input_real false alpha = (pr, lr) →
  discriminator (generator input_z output_dim false alpha true) true alpha
  = (pf, lf) →
  length pr = length lr → length pf = length lf →
  lr ≠ [] → lf ≠ [] →
  Forall (fun x => x = 0) lr → Forall (fun x => x = 0) lf →
  model_loss tensor ztensor generator discriminator input_real input_z
    output_dim alpha = Ok (2 * ln 2, ln 2).
Proof.
  intros Hr Hf Hlr Hlf Hnr Hnf Hzr Hzf.
  rewrite (model_loss_value _ _ _ _ _ _ _ _ pr lr pf lf) by assumption.
  assert (E : ∀ z l, Forall (fun x => x = 0) l →
                     map (fun x => logit_cross_entropy x z) l
                     = map (fun _ => ln 2) l).
  { intros z l Hl. induction Hl as [|x l -> _ IH]; [reflexivity |].
    simpl. rewrite logit_cross_entropy_zero, IH. reflexivity. }
  rewrite !E by assumption. rewrite !reduce_mean_const by assumption.
  f_equal. f_equal. lra.
Qed.


End LossMore.

Lemma model_loss_g_ignores_real_witness :
  ∃ d g d' g',
    model_loss (list R) (list R) identity_generator identity_discriminator
      [2; -1]%R [0; 3]%R 3 default_alpha = Ok (d, g)
    ∧ model_loss (list R) (list R) identity_generator identity_discriminator
        [5]%R [0; 3]%R 3 default_alpha = Ok (d', g')
    ∧ g = g'.
Proof.
  eexists _, _, _, _.
  split; [unfold model_loss; simpl; reflexivity |].
  split; [unfold model_loss; simpl; reflexivity |].
  eapply (model_loss_g_ignores_real (list R) (list R) identity_generator
            identity_discriminator [2; -1]%R [5]%R [0; 3]%R 3 default_alpha);
    unfold model_loss; simpl; reflexivity.
Defined.

Lemma model_loss_shape_mismatch_witness :
  model_loss (list R) (list R) identity_generator
    (fun x reuse alpha => ([], x)) [2; -1]%R [0; 3]%R 3 default_alpha
  = Raise ValueError.
Proof.
  apply (model_loss_shape_mismatch (list R) (list R) identity_generator
           (fun x reuse alpha => ([], x)) [2; -1]%R [0; 3]%R 3 default_alpha
           [] [2; -1]%R [] [0; 3]%R); try reflexivity.
  left. discriminate.
Defined.

Lemma model_loss_undecided_witness :
  model_loss (list R) (list R) identity_generator identity_discriminator
    [0; 0; 0]%R [0; 0]%R 3 default_alpha = Ok (2 * ln 2, ln 2)%R.
Proof.
  apply (model_loss_undecided (list R) (list R) identity_generator
           identity_discriminator [0; 0; 0]%R [0; 0]%R 3 default_alpha
           (map sigmoid [0; 0; 0]%R) [0; 0; 0]%R (map sigmoid [0; 0]%R) [0; 0]%R);
    try reflexivity; try discriminate; repeat constructor.
Defined.


(** ** [model_opt]: which operation writes which variable *)

Lemma discriminator_not_generator (n : string) :
  startswith n "discriminator" = true → startswith n "generator" = false.
Proof.
  unfold startswith. destruct n as [|c n]; [discriminate |].
  cbn [String.prefix].
  match goal with
  | |- context [Ascii.ascii_dec ?a c] => destruct (Ascii.ascii_dec a c) as [<- | Hne]
  end; [| discriminate].
  intros _. reflexivity.
Qed.

Section OptimizerMore.

Variable value : Type.
Variable feed_dict : Type.
Variable loss_tensor : Type.
Variable trainable_variables : list string.
Variable update_ops : operation value feed_dict.
Variable adam_value :
  loss_tensor → R → R → feed_dict → gmap string value → string → value.
Variable adam_slots : loss_tensor → R → R → list string → operation value feed_dict.

(** X15.  No trainable variable is written by both training operations:
    when the running statistics and the optimiser's bookkeeping are not
    trainable, each trainable variable is left as it is by the
    discriminator's operation, in every session and under every feed, or by
    the generator's. *)
Theorem model_opt_one_writer (d_loss g_loss : loss_tensor)
    (learning_rate beta1 : R) (n : string) :
  (∀ fd vars n, n ∈ trainable_variables → update_ops fd vars !! n = vars !! n) →
  (∀ loss lr b1 var_list fd vars n,
     n ∈ trainable_variables →
     adam_slots loss lr b1 var_list fd vars !! n = vars !! n) →
  n ∈ trainable_variables →
  (∀ fd vars,
     (model_opt value feed_dict loss_tensor trainable_variables update_ops
        adam_value adam_slots d_loss g_loss learning_rate beta1).1 fd vars !! n
     = vars !! n)
  ∨ (∀ fd vars,
       (model_opt value feed_dict loss_tensor trainable_variables update_ops
          adam_value adam_slots d_loss g_loss learning_rate beta1).2 fd vars !! n
       = vars !! n).
Proof.
  intros Hupd Hslots Hn.
  destruct (startswith n "discriminator") eqn:Ed.
  - right. intros fd vars. simpl.
    apply minimize_frame; try assumption.
    apply discriminator_not_generator, Ed.
  - left. intros fd vars. simpl. apply minimize_frame; assumption.
Qed.

(** X16.  The discriminator's operation gives every trainable variable whose
    name starts with ['discriminator'] the value of Adam's step for [d_loss],
    computed from the variables as the update operations leave them; the
    generator's operation does so for the names that start with
    ['generator'] and [g_loss]. *)
Theorem model_opt_updates (d_loss g_loss : loss_tensor) (learning_rate beta1 : R)
    (fd : feed_dict) (vars : gmap string value) (n : string) :
  n ∈ trainable_variables →
  (startswith n "discriminator" = true →
   (model_opt value feed_dict loss_tensor trainable_variables update_ops
      adam_value adam_slots d_loss g_loss learning_rate beta1).1 fd vars !! n
   = Some (adam_value d_loss learning_rate beta1 fd (update_ops fd vars) n))
  ∧ (startswith n "generator" = true →
     (model_opt value feed_dict loss_tensor trainable_variables update_ops
        adam_value adam_slots d_loss g_loss learning_rate beta1).2 fd vars !! n
     = Some (adam_value g_loss learning_rate beta1 fd (update_ops fd vars) n)).
Proof.
  intros Hn. split; intros Hpre; simpl; apply minimize_updates; assumption.
Qed.

End OptimizerMore.

Lemma model_opt_one_writer_witness :
  (∀ fd vars,
     (model_opt Z unit unit toy_trainable toy_update_ops toy_adam_value
        toy_adam_slots tt tt 1 1).1 fd vars !! "generator/w"
     = vars !! "generator/w")
  ∨ (∀ fd vars,
       (model_opt Z unit unit toy_trainable toy_update_ops toy_adam_value
          toy_adam_slots tt tt 1 1).2 fd vars !! "generator/w"
       = vars !! "generator/w").
Proof.
  apply (model_opt_one_writer Z unit unit toy_trainable toy_update_ops
           toy_adam_value toy_adam_slots tt tt 1%R 1%R "generator/w"
           toy_update_ops_frame toy_adam_slots_frame).
  unfold toy_trainable. right. left.
Defined.

Lemma model_opt_updates_witness :
  (startswith "generator/w" "discriminator" = true →
   (model_opt Z unit unit toy_trainable toy_update_ops toy_adam_value
      toy_adam_slots tt tt 1 1).1 tt toy_vars !! "generator/w"
   = Some (toy_adam_value tt 1 1 tt (toy_update_ops tt toy_vars) "generator/w"))
  ∧ (startswith "generator/w" "generator" = true →
     (model_opt Z unit unit toy_trainable toy_update_ops toy_adam_value
        toy_adam_slots tt tt 1 1).2 tt toy_vars !! "generator/w"
     = Some (toy_adam_value tt 1 1 tt (toy_update_ops tt toy_vars) "generator/w")).
Proof.
  apply (model_opt_updates Z unit unit toy_trainable toy_update_ops
           toy_adam_value toy_adam_slots tt tt 1%R 1%R tt toy_vars "generator/w").
  unfold toy_trainable. right. left.
Defined.

(** ** [train]: sampling, intervals of zero, runs without epochs *)

Section TrainMore.

Variable rng : Type.
Variable np_random_shuffle : list nat → rng → list nat * rng.
Variable np_random_uniform : Q → Q → nat * nat → rng → list (list Q) * rng.
Variable session : Type.
Variable lossval : Type.
Variable images : Type.
Variable global_variables_initializer : session.
Variable generator_inference : feed → session → images.
Variable z_size : Z.
Variable module_dataset : binding.

Variable net : GAN session lossval.
Variables epochs batch_size print_every show_every : Z.

Local Abbreviation state := (loop_state rng session lossval images).
Local Abbreviation body :=
  (train_batch rng np_random_uniform session lossval images generator_inference
     z_size net epochs batch_size print_every show_every).
Local Abbreviation run :=
  (train rng np_random_shuffle np_random_uniform session lossval images
     global_variables_initializer generator_inference z_size module_dataset
     net).

(** What one pass through the body does to the sample history. *)
Lemma train_batch_samples (sample_z : list (list Q)) (e : Z) (st st' : state)
    (x : list (list npfloat)) (y : list Z) :
  body sample_z e st (x, y) = Ok st' →
  ∃ z tail,
    let n := (steps st + 1)%Z in
    let fd := {| input_real := Some x; input_z := Some z |} in
    let fs := {| input_real := None; input_z := Some sample_z |} in
    let s := g_opt net fd (d_opt net fd (sess st)) in
    steps st' = n
    ∧ samples st'
      = samples st ++ (if (n mod show_every =? 0)%Z
                       then [generator_inference fs s] else [])
    ∧ trace st'
      = trace st ++ EStep n :: tail
        ++ (if (n mod show_every =? 0)%Z
            then [ESample (lossval := lossval) fs; EView] else [])
    ∧ Forall (fun ev => sample_step (n, []) ev = (n, [])) tail
    ∧ Forall (samples_fed sample_z) tail.
Proof.
  unfold train_batch. intros H.
  apply bind_Ok in H as ([z g] & _ & H).
  apply bind_Ok in H as (r1 & Hr1 & H).
  unfold py_mod in Hr1. destruct (print_every =? 0)%Z; [discriminate |].
  injection Hr1 as <-. exists z.
  destruct ((steps st + 1) mod print_every =? 0)%Z;
    [eexists [_; _; _; _; _; _; _] | eexists [_; _; _]];
    (apply bind_Ok in H as (r2 & Hr2 & H);
     unfold py_mod in Hr2;
     destruct (show_every =? 0)%Z; [discriminate |];
     injection Hr2 as <-;
     destruct ((steps st + 1) mod show_every =? 0)%Z;
     injection H as <-; simpl; rewrite <- ?app_assoc; simpl;
     (split; [reflexivity |]);
     (split; [rewrite ?app_nil_r; reflexivity |]);
     (split; [reflexivity |]);
     split; repeat constructor).
Qed.

(** As [train_invariant], with the sample noise as the run drew it. *)
Lemma train_invariant_drawn (P : list (list Q) → state → Prop) (ds : Dataset)
    (g : rng) (st : state) (ds' : Dataset) :
  (∀ sample_z g', P sample_z {| sess := global_variables_initializer; steps := 0;
                                losses := []; samples := [];
                                trace := [EUniform 72 z_size sample_z];
                                gen := g' |}) →
  (∀ sample_z s g', P sample_z s → P sample_z (set_gen rng session lossval images s g')) →
  (∀ sample_z e s xy s', P sample_z s → body sample_z e s xy = Ok s' → P sample_z s') →
  run ds epochs batch_size print_every show_every g = Ok (st, ds') →
  ∃ sample_z st0,
    sample_z = (np_random_uniform (-1) 1 (Z.to_nat 72, Z.to_nat z_size) g).1
    ∧ (0 <= z_size)%Z
    ∧ st = add_trace rng session lossval images st0 [ESave; EDump]
    ∧ P sample_z st0.
Proof.
  intros Hinit Hgen Hbody H. unfold train in H.
  apply bind_Ok in H as ([sample_z g1] & Hz & H).
  unfold random_uniform in Hz.
  destruct ((72 <? 0) || (z_size <? 0))%Z eqn:Ez; [discriminate |].
  injection Hz as Hz.
  apply bind_Ok in H as ([st0 ds0] & Hloop & [= <- <-]).
  exists sample_z, st0. split; [rewrite Hz; reflexivity |].
  split; [lia |]. split; [reflexivity |].
  apply (for_each_invariant (fun s : state * Dataset => P sample_z s.1))
    in Hloop; [exact Hloop | | apply Hinit].
  intros [s d] e [s' d'] HP Hep. simpl in *. unfold train_epoch in Hep.
  apply bind_Ok in Hep as ([[d1 yielded] g2] & _ & Hep).
  apply bind_Ok in Hep as (s1 & Hbatches & [= <- <-]).
  apply (for_each_invariant (P sample_z)) in Hbatches; [exact Hbatches | | apply Hgen, HP].
  intros s2 xy s3 HP2 Hb. apply (Hbody sample_z e s2 xy s3 HP2 Hb).
Qed.

Lemma sample_step_quiet (n : Z) (acc : list Z) (tail : list (event lossval)) :
  Forall (fun ev => sample_step (n, []) ev = (n, [])) tail →
  fold_left sample_step tail (n, acc) = (n, acc).
Proof.
  induction 1 as [|ev tail Hev _ IH]; [reflexivity |].
  simpl. destruct ev; simpl in *; try exact IH; try discriminate.
  injection Hev as ->. exact IH.
Qed.

(** The sample history of a run, step by step. *)
Lemma train_samples_drawn (ds : Dataset) (g : rng) (st : state) (ds' : Dataset) :
  (∀ l g, (np_random_shuffle l g).1 ≡ₚ l) →
  (0 < show_every)%Z → (0 < batch_size)%Z → (0 <= epochs)%Z →
  run ds epochs batch_size print_every show_every g = Ok (st, ds') →
  let B := ceil_div (Z.of_nat (epoch_samples module_dataset ds)) batch_size in
  let sample_z := (np_random_uniform (-1) 1 (Z.to_nat 72, Z.to_nat z_size) g).1 in
  sampled_steps (trace st)
  = List.filter (fun n => (n mod show_every =? 0)%Z) (seqZ 1 (steps st))
  ∧ length (samples st) = length (sampled_steps (trace st))
  ∧ Z.of_nat (length (samples st)) = (epochs * B / show_every)%Z
  ∧ ∃ rest, trace st = EUniform 72 z_size sample_z :: rest
          ∧ Forall (samples_fed sample_z) rest.
Proof.
  intros Hperm Hq Hbs He H B sample_z.
  pose proof (train_steps rng np_random_shuffle np_random_uniform session lossval
                images global_variables_initializer generator_inference z_size
                module_dataset net epochs batch_size print_every show_every
                ds g st ds' Hperm Hbs H) as Hsteps.
  rewrite Z2Nat.id in Hsteps by exact He. fold B in Hsteps.
  apply (train_invariant_drawn (fun sz s =>
           (0 <= steps s)%Z
           ∧ fold_left sample_step (trace s) (0%Z, [])
             = (steps s,
                List.filter (fun n => (n mod show_every =? 0)%Z) (seqZ 1 (steps s)))
           ∧ length (samples s)
             = length (List.filter (fun n => (n mod show_every =? 0)%Z)
                         (seqZ 1 (steps s)))
           ∧ ∃ rest, trace s = EUniform 72 z_size sz :: rest
                   ∧ Forall (samples_fed sz) rest)) in H.
  - destruct H as (sz & st0 & Esz & _ & -> & Hpos & Hlog & Hlen & rest & Htr & Hfed).
    fold sample_z in Esz. subst sz. simpl in Hsteps.
    assert (Hss : sampled_steps (trace st0 ++ [ESave; EDump])
                  = List.filter (fun n => (n mod show_every =? 0)%Z)
                      (seqZ 1 (steps st0))).
    { unfold sampled_steps. rewrite fold_left_app, Hlog. reflexivity. }
    simpl. rewrite Hss. split; [reflexivity |]. split; [exact Hlen |].
    split; [rewrite Hlen, count_multiples by assumption; rewrite Hsteps; reflexivity |].
    exists (rest ++ [ESave; EDump]). rewrite Htr. split; [reflexivity |].
    apply Forall_app. split; [exact Hfed | repeat constructor].
  - intros sz g'. simpl. repeat split; [lia |]. exists []. split; [reflexivity | constructor].
  - intros sz s g' HP. exact HP.
  - intros sz e s [x y] s' (Hpos & Hlog & Hlen & rest & Htr & Hfed) Hb.
    apply train_batch_samples in Hb as (z & tail & Hb). simpl in Hb.
    destruct Hb as (Hst & Hsm & Htr' & Hquiet & Htail).
    rewrite Hst, Hsm, Htr'.
    rewrite fold_left_app, Hlog. simpl.
    rewrite fold_left_app, (sample_step_quiet _ _ _ Hquiet).
    rewrite filter_seqZ_succ by exact Hpos.
    split; [lia |].
    assert (Hnew : ∀ smp, Forall (samples_fed sz) smp →
              ∃ rest', trace s ++ EStep (steps s + 1) :: tail ++ smp
                       = EUniform 72 z_size sz :: rest'
                       ∧ Forall (samples_fed sz) rest').
    { intros smp Hsmp. exists (rest ++ EStep (steps s + 1) :: tail ++ smp).
      rewrite Htr. split; [reflexivity |].
      apply Forall_app. split; [exact Hfed |].
      constructor; [exact I |]. apply Forall_app. split; assumption. }
    destruct ((steps s + 1) mod show_every =? 0)%Z; simpl.
    + rewrite !length_app, Hlen. repeat split. apply Hnew. repeat constructor.
    + rewrite !app_nil_r. repeat split; [exact Hlen |].
      specialize (Hnew [] (Forall_nil_2 _)). rewrite app_nil_r in Hnew. exact Hnew.
Qed.

(** X17.  With a positive sampling interval, the run samples the generator
    at exactly the steps whose count is a multiple of [show_every], each
    time under the noise drawn once before the first epoch and under no
    other feed, and appends one batch of images to the sample history per
    sampling: after [epochs] epochs of [B] passes each the history holds
    [epochs * B / show_every] batches, rounded down. *)
Theorem train_sample_history (ds : Dataset) (g : rng) (st : state) (ds' : Dataset) :
  (∀ l g, (np_random_shuffle l g).1 ≡ₚ l) →
  (0 < show_every)%Z → (0 < batch_size)%Z → (0 <= epochs)%Z →
  run ds epochs batch_size print_every show_every g = Ok (st, ds') →
  let B := ceil_div (Z.of_nat (epoch_samples module_dataset ds)) batch_size in
  let sample_z := (np_random_uniform (-1) 1 (Z.to_nat 72, Z.to_nat z_size) g).1 in
  sampled_steps (trace st)
  = List.filter (fun n => (n mod show_every =? 0)%Z) (seqZ 1 (steps st))
  ∧ length (samples st) = length (sampled_steps (trace st))
  ∧ Z.of_nat (length (samples st)) = (epochs * B / show_every)%Z
  ∧ ∃ rest, trace st = EUniform 72 z_size sample_z :: rest
          ∧ Forall (samples_fed sample_z) rest.
Proof.
  intros Hperm Hq Hbs He H.
  exact (train_samples_drawn ds g st ds' Hperm Hq Hbs He H).
Qed.

(** X18.  A run with a logging or a sampling interval of zero returns only
    if it never entered the body of the batch loop: it has then counted no
    step, recorded no loss and no sample, and the session holds the initial
    values. *)
Theorem train_zero_interval (ds : Dataset) (g : rng) (st : state) (ds' : Dataset) :
  print_every = 0%Z ∨ show_every = 0%Z →
  run ds epochs batch_size print_every show_every g = Ok (st, ds') →
  steps st = 0%Z ∧ losses st = [] ∧ samples st = []
  ∧ sess st = global_variables_initializer
  ∧ ∃ sample_z, trace st = [EUniform 72 z_size sample_z; ESave; EDump].
Proof.
  intros Hzero H.
  apply (train_invariant_drawn (fun sz s =>
           steps s = 0%Z ∧ losses s = [] ∧ samples s = []
           ∧ sess s = global_variables_initializer
           ∧ trace s = [EUniform 72 z_size sz])) in H.
  - destruct H as (sz & st0 & _ & _ & -> & H1 & H2 & H3 & H4 & H5).
    simpl. rewrite H5. repeat split; try assumption. exists sz. reflexivity.
  - intros sz g'. simpl. repeat split.
  - intros sz s g' HP. exact HP.
  - intros sz e s [x y] s' _ Hb.
    apply train_batch_spec in Hb as (z & g1 & _ & Hp & Hq & _).
    destruct Hzero; contradiction.
Qed.

(** X19.  Without epochs the run neither reads the data nor trains: it draws
    the sample noise, saves the checkpoint of the initial session, dumps an
    empty sample history and returns empty histories, also when an interval
    or the batch size is zero. *)
Theorem train_no_epochs (ds : Dataset) (g : rng) :
  (epochs <= 0)%Z → (0 <= z_size)%Z →
  ∃ st,
    run ds epochs batch_size print_every show_every g = Ok (st, ds)
    ∧ steps st = 0%Z ∧ losses st = [] ∧ samples st = []
    ∧ sess st = global_variables_initializer
    ∧ trace st
      = [EUniform 72 z_size (np_random_uniform (-1) 1 (Z.to_nat 72, Z.to_nat z_size) g).1;
         ESave; EDump].
Proof.
  intros He Hz. unfold train, random_uniform.
  destruct ((72 <? 0) || (z_size <? 0))%Z eqn:Ez; [simpl in Ez; lia |].
  destruct (np_random_uniform (-1) 1 (Z.to_nat 72, Z.to_nat z_size) g) as [sample_z g1].
  replace (Z.to_nat epochs) with 0 by lia. simpl.
  eexists. split; [reflexivity |]. simpl. repeat split.
Qed.

(** X20.  A negative [z_size] makes the run raise [ValueError] at the draw
    of the sample noise, before any session work. *)
Theorem train_negative_z_size (ds : Dataset) (g : rng) :
  (z_size < 0)%Z →
  run ds epochs batch_size print_every show_every g = Raise ValueError.
Proof.
  intros Hz. unfold train, random_uniform. simpl.
  destruct (z_size <? 0)%Z eqn:Ez; [reflexivity | lia].
Qed.

(** X21.  Without shuffling, on [n] training images and [n] labels, with a
    positive batch size, a [z_size] that is not negative, intervals that are
    not zero and a scaler that accepts every batch of training images that
    is not empty, the run returns and leaves the [Dataset] object as it
    was. *)
Theorem train_completes (ds : Dataset) (g : rng) (n : nat) :
  shuffle ds = false →
  (0 < batch_size)%Z → (0 <= z_size)%Z →
  print_every ≠ 0%Z → show_every ≠ 0%Z →
  length (train_x ds) = n → length (train_y ds) = n →
  (∀ x, x ≠ [] → x ⊆ train_x ds → is_ok (scaler ds x)) →
  ∃ st, run ds epochs batch_size print_every show_every g = Ok (st, ds).
Proof.
  intros Hsh Hbs Hz Hp Hq Hx Hy Hscaler. unfold train, random_uniform.
  destruct (z_size <? 0)%Z eqn:E; [lia |]. simpl.
  destruct (np_random_uniform _ _ _ _) as [sample_z g1]. simpl.
  match goal with
  | |- context [for_each ?b ?items ?s0] =>
      destruct (for_each_total (fun s : state * Dataset => s.2 = ds) b items s0)
        as ([st d] & Hloop & Hd)
  end.
  - intros [s d] e Hd. simpl in Hd. subst d. unfold train_epoch.
    destruct (batch_loop_cover_within ds batch_size n Hbs Hx Hy Hscaler)
      as (yielded & Hloop & _).
    rewrite batches_unshuffled by exact Hsh. rewrite Hloop. simpl.
    match goal with
    | |- context [for_each ?b ?items ?s0] =>
        destruct (for_each_total (fun _ : state => True) b items s0)
          as (s1 & Hinner & _)
    end.
    + intros s2 xy _.
      destruct (train_batch_returns rng np_random_uniform session lossval images
                  generator_inference z_size net epochs batch_size print_every
                  show_every sample_z e s2 xy) as [s3 Hs3];
        try assumption; try lia. eauto.
    + exact I.
    + rewrite Hinner. simpl. eauto.
  - reflexivity.
  - simpl in Hd. subst d. rewrite Hloop. simpl. eauto.
Qed.

Lemma train_batch_raises (sample_z : list (list Q)) (e : Z) (s : state)
    (xy : list (list npfloat) * list Z) :
  print_every = 0%Z ∨ show_every = 0%Z →
  (0 <= batch_size)%Z → (0 <= z_size)%Z →
  body sample_z e s xy = Raise ZeroDivisionError.
Proof.
  intros Hzero Hbs Hz. unfold train_batch, random_uniform, py_mod.
  destruct xy as [x y].
  destruct (batch_size <? 0)%Z eqn:E1; [lia |].
  destruct (z_size <? 0)%Z eqn:E2; [lia |]. simpl.
  destruct (np_random_uniform _ _ _ _) as [z g1]. simpl.
  destruct (print_every =? 0)%Z eqn:Ep; [reflexivity |]. simpl.
  destruct Hzero as [-> | ->]; [discriminate |].
  destruct ((steps s + 1) mod print_every =? 0)%Z; reflexivity.
Qed.

(** X22.  With a logging or a sampling interval of zero, a run of at least
    one epoch over a training set that is not empty (no shuffling, positive
    batch size, a scaler that accepts the batches of training images) raises
    [ZeroDivisionError] in its first pass through the batch loop. *)
Theorem train_zero_interval_raises (ds : Dataset) (g : rng) (n : nat) :
  print_every = 0%Z ∨ show_every = 0%Z →
  shuffle ds = false →
  (0 < batch_size)%Z → (0 <= z_size)%Z → (0 < epochs)%Z →
  length (train_x ds) = n → length (train_y ds) = n → 0 < n →
  (∀ x, x ≠ [] → x ⊆ train_x ds → is_ok (scaler ds x)) →
  run ds epochs batch_size print_every show_every g = Raise ZeroDivisionError.
Proof.
  intros Hzero Hsh Hbs Hz He Hx Hy Hn Hscaler. unfold train, random_uniform.
  destruct (z_size <? 0)%Z eqn:E; [lia |]. simpl.
  destruct (np_random_uniform _ _ _ _) as [sample_z g1]. simpl.
  destruct (Z.to_nat epochs) as [|k] eqn:Ek; [lia |]. simpl.
  destruct (batch_loop_cover_within ds batch_size n Hbs Hx Hy Hscaler)
    as (yielded & Hloop & Hlen & _).
  rewrite batches_unshuffled by exact Hsh. rewrite Hloop. simpl.
  destruct yielded as [|xy yielded].
  - exfalso. simpl in Hlen.
    pose proof (ceil_div_spec (Z.of_nat n) batch_size Hbs) as [_ Hhi]. lia.
  - simpl. rewrite train_batch_raises by (assumption || lia). reflexivity.
Qed.

End TrainMore.

(** *** Runs of the toy network *)

Lemma four_samples_scaler_accepts (x : list image) :
  x ≠ [] → x ⊆ train_x (four_samples false) →
  is_ok (scaler (four_samples false) x).
Proof.
  intros Hx Hsub.
  apply (default_scaler_accepts (train_x (four_samples false))); try assumption.
  simpl. repeat constructor; discriminate.
Qed.

Lemma train_sample_history_witness :
  ∃ st ds',
    toy_train (four_samples false) 2 3 2 3 = Ok (st, ds')
    ∧ sampled_steps (trace st)
      = List.filter (fun n => (n mod 3 =? 0)%Z) (seqZ 1 (steps st))
    ∧ length (samples st) = length (sampled_steps (trace st))
    ∧ Z.of_nat (length (samples st)) = (2 * ceil_div 4 3 / 3)%Z
    ∧ ∃ rest,
        trace st
        = EUniform 72 2 (constant_uniform (-1) 1 (Z.to_nat 72, Z.to_nat 2) tt).1
          :: rest
        ∧ Forall (samples_fed
                    (constant_uniform (-1) 1 (Z.to_nat 72, Z.to_nat 2) tt).1) rest.
Proof.
  assert (Hrun : ∃ r, toy_train (four_samples false) 2 3 2 3 = Ok r)
    by (eexists; vm_compute; reflexivity).
  destruct Hrun as [[st ds'] Hrun].
  exists st, ds'. split; [exact Hrun |].
  apply (train_sample_history unit reverse_shuffle constant_uniform Z Z unit 0%Z
           (fun _ _ => tt) 2%Z Self toy_net 2 3 2 3 (four_samples false) tt st ds'
           reverse_shuffle_permutes); [lia | lia | lia | exact Hrun].
Defined.

Lemma train_zero_interval_witness :
  ∃ st ds',
    toy_train (four_samples false) 0 3 0 3 = Ok (st, ds')
    ∧ steps st = 0%Z ∧ losses st = [] ∧ samples st = []
    ∧ sess st = 0%Z
    ∧ ∃ sample_z, trace st = [EUniform 72 2 sample_z; ESave; EDump].
Proof.
  assert (Hrun : ∃ r, toy_train (four_samples false) 0 3 0 3 = Ok r)
    by (eexists; vm_compute; reflexivity).
  destruct Hrun as [[st ds'] Hrun].
  exists st, ds'. split; [exact Hrun |].
  apply (train_zero_interval unit reverse_shuffle constant_uniform Z Z unit 0%Z
           (fun _ _ => tt) 2%Z Self toy_net 0 3 0 3 (four_samples false) tt st ds');
    [left; reflexivity | exact Hrun].
Defined.

Lemma train_no_epochs_witness :
  ∃ st,
    toy_train (four_samples false) 0 0 0 0 = Ok (st, four_samples false)
    ∧ steps st = 0%Z ∧ losses st = [] ∧ samples st = []
    ∧ sess st = 0%Z
    ∧ trace st
      = [EUniform 72 2 (constant_uniform (-1) 1 (Z.to_nat 72, Z.to_nat 2) tt).1;
         ESave; EDump].
Proof.
  apply (train_no_epochs unit reverse_shuffle constant_uniform Z Z unit 0%Z
           (fun _ _ => tt) 2%Z Self toy_net 0 0 0 0 (four_samples false) tt); lia.
Defined.

Lemma train_negative_z_size_witness :
  train unit reverse_shuffle constant_uniform Z Z unit 0%Z (fun _ _ => tt)
    (-1)%Z Self toy_net (four_samples false) 2 3 2 3 tt = Raise ValueError.
Proof.
  apply (train_negative_z_size unit reverse_shuffle constant_uniform Z Z unit 0%Z
           (fun _ _ => tt) (-1)%Z Self toy_net 2 3 2 3 (four_samples false) tt). lia.
Defined.

Lemma train_completes_witness :
  ∃ st, toy_train (four_samples false) 2 3 2 3 = Ok (st, four_samples false).
Proof.
  apply (train_completes unit reverse_shuffle constant_uniform Z Z unit 0%Z
           (fun _ _ => tt) 2%Z Self toy_net 2 3 2 3 (four_samples false) tt 4);
    try reflexivity; try lia.
  apply four_samples_scaler_accepts.
Defined.

Lemma train_zero_interval_raises_witness :
  toy_train (four_samples false) 2 3 0 3 = Raise ZeroDivisionError.
Proof.
  apply (train_zero_interval_raises unit reverse_shuffle constant_uniform Z Z unit
           0%Z (fun _ _ => tt) 2%Z Self toy_net 2 3 0 3 (four_samples false) tt 4);
    try reflexivity; try lia.
  apply four_samples_scaler_accepts.
Defined.

(** ** [view_samples] *)

Lemma fold_max_ge (ps : list Q) (p : Q) :
  (p <= fold_left Qmax ps p)%Q ∧ Forall (fun q => (q <= fold_left Qmax ps p)%Q) ps.
Proof.
  revert p. induction ps as [|a ps IH]; intros p; simpl.
  - split; [apply Qle_refl | constructor].
  - destruct (IH (Qmax p a)) as [H1 H2]. split.
    + eapply Qle_trans; [apply Q.le_max_l | exact H1].
    + constructor; [| exact H2].
      eapply Qle_trans; [apply Q.le_max_r | exact H1].
Qed.

Lemma fold_min_glb (ps : list Q) (p c : Q) :
  (c <= p)%Q → Forall (fun q => (c <= q)%Q) ps → (c <= fold_left Qmin ps p)%Q.
Proof.
  revert p. induction ps as [|a ps IH]; intros p Hp Hps; simpl; [exact Hp |].
  inversion Hps; subst. apply IH; [| assumption].
  apply Q.min_glb; assumption.
Qed.

Lemma fold_max_lub (ps : list Q) (p c : Q) :
  (p <= c)%Q → Forall (fun q => (q <= c)%Q) ps → (fold_left Qmax ps p <= c)%Q.
Proof.
  revert p. induction ps as [|a ps IH]; intros p Hp Hps; simpl; [exact Hp |].
  inversion Hps; subst. apply IH; [| assumption].
  apply Q.max_lub; assumption.
Qed.

(** The least and the greatest pixel of an image that has one. *)
Lemma np_min_max (img : image) :
  img ≠ [] →
  ∃ lo hi,
    np_min img = Ok lo ∧ np_max img = Ok hi
    ∧ Forall (fun q => (lo <= q <= hi)%Q) img
    ∧ (∀ c, Forall (fun q => (c <= q)%Q) img → (c <= lo)%Q)
    ∧ (∀ c, Forall (fun q => (q <= c)%Q) img → (hi <= c)%Q).
Proof.
  destruct img as [|p ps]; [congruence |]. intros _.
  exists (fold_left Qmin ps p), (fold_left Qmax ps p).
  destruct (fold_min_le ps p) as [Hl1 Hl2].
  destruct (fold_max_ge ps p) as [Hh1 Hh2].
  split; [reflexivity |]. split; [reflexivity |]. split; [| split].
  - constructor; [split; assumption |].
    apply Forall_forall. intros q Hq.
    rewrite Forall_forall in Hl2, Hh2. split; [apply Hl2 | apply Hh2]; exact Hq.
  - intros c Hc. inversion Hc; subst. apply fold_min_glb; assumption.
  - intros c Hc. inversion Hc; subst. apply fold_max_lub; assumption.
Qed.




(** X24.  An image whose pixels are all equal has no defined byte value to
    show: the difference between its greatest and its least pixel is zero,
    every quotient is [nan]. *)
Theorem image_to_uint8_constant (img : image) (c : Q) :
  img ≠ [] → Forall (fun p => (p == c)%Q) img →
  image_to_uint8 img = Ok (repeat None (length img)).
Proof.
  intros Hne Hc.
  destruct (np_min_max img Hne) as (lo & hi & Hlo & Hhi & Hall & Hglb & Hlub).
  assert (Elo : (lo == c)%Q).
  { apply Qle_antisym.
    - destruct img as [|p ps]; [congruence |].
      inversion Hc; subst. inversion Hall; subst. lra.
    - apply Hglb. eapply Forall_impl; [exact Hc |]. simpl. intros q Hq. lra. }
  assert (Ehi : (hi == c)%Q).
  { apply Qle_antisym.
    - apply Hlub. eapply Forall_impl; [exact Hc |]. simpl. intros q Hq. lra.
    - destruct img as [|p ps]; [congruence |].
      inversion Hc; subst. inversion Hall; subst. lra. }
  unfold image_to_uint8. rewrite Hlo, Hhi. simpl. f_equal.
  clear Hlo Hhi Hall Hglb Hlub Hne.
  induction Hc as [|p ps Hp _ IH]; [reflexivity |].
  simpl. rewrite IH. f_equal.
  unfold np_true_divide.
  destruct (Qeq_bool (hi - lo) 0) eqn:E.
  - destruct (Qeq_bool ((p - lo) * 255) 0) eqn:E'; [reflexivity |].
    apply Qeq_bool_neq in E'. exfalso. apply E'.
    assert (E1 : (p - lo == 0)%Q) by lra. rewrite E1. ring.
  - apply Qeq_bool_neq in E. exfalso. apply E. lra.
Qed.

Lemma image_to_uint8_constant_witness :
  image_to_uint8 [(1 # 2)%Q; (2 # 4)%Q] = Ok [None; None].
Proof.
  apply (image_to_uint8_constant [(1 # 2)%Q; (2 # 4)%Q] (1 # 2)%Q).
  - discriminate.
  - repeat constructor.
Defined.

(** [a[-1]] is the last element of a list that has one. *)
Lemma py_getitem_last {A} (a : list A) :
  py_getitem a (-1) = match last a with Some v => Ok v | None => Raise IndexError end.
Proof.
  unfold py_getitem. simpl.
  destruct a as [|x xs] using rev_ind; [reflexivity |].
  rewrite last_snoc. rewrite length_app. simpl.
  destruct (-1 + Z.of_nat (length xs + 1) <? 0)%Z eqn:E;
    [apply Z.ltb_lt in E; lia |].
  replace (Z.to_nat (-1 + Z.of_nat (length xs + 1))) with (length xs) by lia.
  rewrite lookup_app_r by lia. rewrite Nat.sub_diag. reflexivity.
Qed.

Section ViewAfterTrain.

Variable rng : Type.
Variable np_random_shuffle : list nat → rng → list nat * rng.
Variable np_random_uniform : Q → Q → nat * nat → rng → list (list Q) * rng.
Variable session : Type.
Variable lossval : Type.
Variable global_variables_initializer : session.
Variable generator_inference : feed → session → list image.
Variable z_size : Z.
Variable module_dataset : binding.
Variable net : GAN session lossval.

(** X25.  The notebook's last cell, [view_samples(-1, samples, 6, 12)], after
    a run with a positive sampling interval: when the run made fewer steps
    than the interval the sample history is empty and the call raises
    [IndexError]; otherwise it shows the images of the last sampling, as many
    of them as the grid has axes. *)
Theorem train_then_view (ds : Dataset) (epochs batch_size print_every show_every : Z)
    (g : rng) (st : loop_state rng session lossval (list image)) (ds' : Dataset)
    (nrows ncols : nat) :
  (∀ l g, (np_random_shuffle l g).1 ≡ₚ l) →
  (0 < show_every)%Z → (0 < batch_size)%Z → (0 <= epochs)%Z →
  (2 <= nrows * ncols)%nat →
  train rng np_random_shuffle np_random_uniform session lossval (list image)
    global_variables_initializer generator_inference z_size module_dataset net
    ds epochs batch_size print_every show_every g = Ok (st, ds') →
  let B := ceil_div (Z.of_nat (epoch_samples module_dataset ds)) batch_size in
  ((epochs * B < show_every)%Z →
     view_samples (-1) (samples st) nrows ncols = Some (Raise IndexError))
  ∧ ((show_every <= epochs * B)%Z →
     ∃ imgs, last (samples st) = Some imgs
       ∧ view_samples (-1) (samples st) nrows ncols
         = Some (collect image_to_uint8 (take (nrows * ncols) imgs))).
Proof.
  intros Hperm Hq Hbs He Hgrid H B.
  destruct (train_samples_drawn rng np_random_shuffle np_random_uniform session
              lossval (list image) global_variables_initializer
              generator_inference z_size module_dataset net epochs batch_size
              print_every show_every ds g st ds' Hperm Hq Hbs He H)
    as (_ & _ & Hlen & _).
  fold B in Hlen.
  assert (HB : (0 <= epochs * B)%Z).
  { pose proof (ceil_div_spec (Z.of_nat (epoch_samples module_dataset ds))
                  batch_size Hbs). unfold B. nia. }
  unfold view_samples.
  destruct (nrows * ncols <? 2)%nat eqn:Eg; [apply Nat.ltb_lt in Eg; lia |].
  rewrite py_getitem_last.
  split.
  - intros Hfew. rewrite Z.div_small in Hlen by lia.
    destruct (samples st); [reflexivity | discriminate].
  - intros Hmany.
    assert (1 <= epochs * B / show_every)%Z.
    { apply Z.div_le_lower_bound; lia. }
    destruct (samples st) as [|s0 ss] using rev_ind; [simpl in Hlen; lia |].
    rewrite last_snoc. eexists. split; reflexivity.
Qed.

End ViewAfterTrain.

Lemma train_then_view_witness :
  ∃ st ds',
    view_train (four_samples false) 2 3 2 3 = Ok (st, ds')
    ∧ ((2 * ceil_div (Z.of_nat (epoch_samples Self (four_samples false))) 3 < 3)%Z →
         view_samples (-1) (samples st) 1 2 = Some (Raise IndexError))
    ∧ ((3 <= 2 * ceil_div (Z.of_nat (epoch_samples Self (four_samples false))) 3)%Z →
         ∃ imgs, last (samples st) = Some imgs
           ∧ view_samples (-1) (samples st) 1 2
             = Some (collect image_to_uint8 (take (1 * 2) imgs))).
Proof.
  assert (Hrun : ∃ r, view_train (four_samples false) 2 3 2 3 = Ok r)
    by (eexists; vm_compute; reflexivity).
  destruct Hrun as [[st ds'] Hrun].
  exists st, ds'. split; [exact Hrun |].
  apply (train_then_view unit reverse_shuffle constant_uniform Z Z 0%Z
           (fun _ _ => two_images) 2%Z Self toy_net (four_samples false)
           2 3 2 3 tt st ds' 1 2 reverse_shuffle_permutes);
    [lia | lia | lia | simpl; lia | exact Hrun].
Defined.

(** ** The download cell *)

Lemma run_hook_snoc (self : DLProgress) (calls : list (Z * Z * option Z))
    (block_num block_size : Z) (total_size : option Z) :
  run_hook self (calls ++ [(block_num, block_size, total_size)])
  = DLProgress_hook (run_hook self calls) block_num block_size total_size.
Proof. unfold run_hook. rewrite fold_left_app. reflexivity. Qed.

(** X26.  Reports of one block size, in whatever order the block numbers
    come: the bar started at zero counts the last reported block number times
    the block size, remembers that block number, and carries the total of the
    last report. *)
Theorem DLProgress_hook_telescopes (total : option Z) (block_size : Z)
    (calls : list (Z * Z * option Z)) :
  Forall (fun c => c.1.2 = block_size) calls →
  let bar := run_hook (DLProgress_new total) calls in
  dl_n bar = (dl_last_block bar * block_size)%Z
  ∧ dl_last_block bar = from_option (fun c => c.1.1) 0%Z (last calls)
  ∧ dl_total bar = from_option (fun c => c.2) total (last calls).
Proof.
  induction calls as [|[[b s] t] calls IH] using rev_ind; intros Hsize bar.
  - repeat split; reflexivity.
  - apply Forall_app in Hsize as [Hcalls Hlast].
    inversion Hlast as [|? ? Hs _]; subst. simpl in *.
    destruct (IH Hcalls) as (Hn & _ & _).
    unfold bar. rewrite run_hook_snoc, last_snoc. simpl.
    split; [| split; reflexivity].
    rewrite Hn. ring.
Qed.

Lemma DLProgress_hook_telescopes_witness :
  let bar := run_hook (DLProgress_new None)
               [(0, 8192, Some 20000); (1, 8192, Some 20000);
                (2, 8192, Some 20000); (3, 8192, Some 20000)]%Z in
  dl_n bar = (dl_last_block bar * 8192)%Z
  ∧ dl_last_block bar
    = from_option (fun c => c.1.1) 0%Z
        (last [(0, 8192, Some 20000); (1, 8192, Some 20000);
               (2, 8192, Some 20000); (3, 8192, Some 20000)]%Z)
  ∧ dl_total bar
    = from_option (fun c => c.2) None
        (last [(0, 8192, Some 20000); (1, 8192, Some 20000);
               (2, 8192, Some 20000); (3, 8192, Some 20000)]%Z).
Proof.
  apply (DLProgress_hook_telescopes None 8192
           [(0, 8192, Some 20000); (1, 8192, Some 20000);
            (2, 8192, Some 20000); (3, 8192, Some 20000)]%Z).
  repeat constructor.
Defined.

(** X27.  With the data directory present the cell does not raise and leaves
    both files in place, touches no directory and removes no file; it
    retrieves exactly the files that were missing; run again on what it
    left, it retrieves nothing and changes nothing. *)
Theorem download_cell_idempotent (fs : filesystem) :
  isdir fs data_dir = true →
  ∃ fs' fetched,
    download_cell fs = Some (fs', fetched)
    ∧ isfile fs' (data_dir +:+ "train_32x32.mat") = true
    ∧ isfile fs' (data_dir +:+ "test_32x32.mat") = true
    ∧ fs_dirs fs' = fs_dirs fs
    ∧ fs_files fs ⊆ fs_files fs'
    ∧ (train_url ∈ fetched ↔ isfile fs (data_dir +:+ "train_32x32.mat") = false)
    ∧ (test_url ∈ fetched ↔ isfile fs (data_dir +:+ "test_32x32.mat") = false)
    ∧ download_cell fs' = Some (fs', []).
Proof.
  intros Hdir.
  assert (Hurl : train_url ≠ test_url) by (vm_compute; discriminate).
  assert (Hname : "data/train_32x32.mat" ≠ "data/test_32x32.mat") by discriminate.
  unfold download_cell. rewrite Hdir.
  change (data_dir +:+ "train_32x32.mat") with "data/train_32x32.mat".
  change (data_dir +:+ "test_32x32.mat") with "data/test_32x32.mat".
  cbn [negb].
  destruct (isfile fs "data/train_32x32.mat") eqn:E1; cbn [negb].
  - destruct (isfile fs "data/test_32x32.mat") eqn:E2; cbn [negb].
    + exists fs, []. rewrite Hdir, E1. cbn [negb]. rewrite E2. cbn [negb].
      repeat split; try reflexivity; try discriminate; try (intros Hin; inversion Hin).
    + eexists _, _. split; [reflexivity |].
      unfold isfile, isdir, urlretrieve in *. cbn [fs_dirs fs_files].
      apply bool_decide_eq_true in E1. apply bool_decide_eq_false in E2.
      rewrite Hdir.
      rewrite (bool_decide_eq_true_2 ("data/train_32x32.mat" ∈ _)) by set_solver.
      cbn [negb app fs_dirs fs_files].
      rewrite (bool_decide_eq_true_2 ("data/test_32x32.mat" ∈ _)) by set_solver.
      cbn [negb app fs_dirs fs_files].
      repeat split; try reflexivity; try set_solver.
  - assert (E2 : isfile (urlretrieve train_url "data/train_32x32.mat" fs)
                   "data/test_32x32.mat" = isfile fs "data/test_32x32.mat").
    { unfold isfile, urlretrieve. cbn [fs_files].
      apply bool_decide_ext. set_solver. }
    rewrite E2.
    destruct (isfile fs "data/test_32x32.mat") eqn:E3; cbn [negb].
    + eexists _, _. split; [reflexivity |].
      unfold isfile, isdir, urlretrieve in *. cbn [fs_dirs fs_files].
      apply bool_decide_eq_false in E1. apply bool_decide_eq_true in E3.
      rewrite Hdir.
      rewrite (bool_decide_eq_true_2 ("data/train_32x32.mat" ∈ _)) by set_solver.
      cbn [negb app fs_dirs fs_files].
      rewrite (bool_decide_eq_true_2 ("data/test_32x32.mat" ∈ _)) by set_solver.
      cbn [negb app fs_dirs fs_files].
      repeat split; try reflexivity; try set_solver.
    + eexists _, _. split; [reflexivity |].
      unfold isfile, isdir, urlretrieve in *. cbn [fs_dirs fs_files].
      apply bool_decide_eq_false in E1. apply bool_decide_eq_false in E3.
      rewrite Hdir.
      rewrite (bool_decide_eq_true_2 ("data/train_32x32.mat" ∈ _)) by set_solver.
      cbn [negb app fs_dirs fs_files].
      rewrite (bool_decide_eq_true_2 ("data/test_32x32.mat" ∈ _)) by set_solver.
      cbn [negb app fs_dirs fs_files].
      repeat split; try reflexivity; try set_solver.
Qed.

Lemma download_cell_idempotent_witness :
  ∃ fs' fetched,
    download_cell test_file_only = Some (fs', fetched)
    ∧ isfile fs' (data_dir +:+ "train_32x32.mat") = true
    ∧ isfile fs' (data_dir +:+ "test_32x32.mat") = true
    ∧ fs_dirs fs' = fs_dirs test_file_only
    ∧ fs_files test_file_only ⊆ fs_files fs'
    ∧ (train_url ∈ fetched
       ↔ isfile test_file_only (data_dir +:+ "train_32x32.mat") = false)
    ∧ (test_url ∈ fetched
       ↔ isfile test_file_only (data_dir +:+ "test_32x32.mat") = false)
    ∧ download_cell fs' = Some (fs', []).
Proof.
  apply (download_cell_idempotent test_file_only).
  vm_compute. reflexivity.
Defined.
